(** * cleanup_history.py: a verification development

    The program walks the files tracked by git, skips binary files and
    vendored or generated directories, rewrites the text of the remaining
    files to remove Windows user-home paths, and stages the result.

    The development follows the source top-down:
    - [PyStr]: Python [str] values (sequences of code points), with
      [str.replace], [in], [str.strip] and the fragment of [re] that the
      pattern of the program uses;
    - [Codec]: the strict UTF-8 codec and the newline translation of files
      opened in text mode;
    - [OS]: the file system, the two shell commands, and the monad of
      Python computations (a result or a raised exception, and the world
      after);
    - the three functions of the source, [is_binary], [replace_pii], [main];
    - what the specification says, as predicates and relations;
    - the lemmas, and last the theorems on the claims of the specification.

    What the model leaves out:
    - a path is a key of the working tree: two spellings of one file are
      two paths, symbolic links are not followed (every statement about
      the file at a path is about a regular file found at that very path),
      and directories above a file are not looked at;
    - whether a file can be opened depends on the working tree alone: no
      other process changes it during the run, and what has been opened
      for writing is written and closed without error (no full disk);
    - [print] always succeeds;
    - the listing is iterated over as it is when [main] opens it, block by
      block as the text layer of CPython does (blocks of 8192 bytes, the
      incremental UTF-8 decoder of CPython 3.8 and later): a rewrite of
      [tracked_files.txt] by the loop itself, when git lists that file, is
      not seen by the iteration (with line feeds as line ends it rewrites
      what git prints to the same bytes: git quotes the names that hold a
      backslash or a control character);
    - of git, only what [git ls-files] prints, and what [git add .] takes
      of a working tree, which the world gives as a function: which files
      it stages and whether it succeeds is left open. *)

From Stdlib Require Import NArith List String Ascii Lia Bool.
From Stdlib.Strings Require Import Byte.
From stdpp Require Import base option list strings gmap.

Local Open Scope N_scope.

(** ** Python strings *)

Module PyStr.

(** A Python [str] is a sequence of Unicode code points. *)
Abbreviation str := (list N).

(** A literal of the source, character by character. *)
Definition py (s : string) : str :=
  List.map N_of_ascii (list_ascii_of_string s).

(** [s.startswith(p)]. *)
Fixpoint starts_with (p s : str) : bool :=
  match p, s with
  | [], _ => true
  | _ :: _, [] => false
  | a :: p', c :: s' => (a =? c) && starts_with p' s'
  end.

(** All suffixes of [s], longest first, the empty one included. *)
Fixpoint tails (s : str) : list str :=
  match s with
  | [] => [[]]
  | _ :: s' => s :: tails s'
  end.

(** [sub in s]: [sub] occurs somewhere in [s]. *)
Definition contains (sub s : str) : bool :=
  existsb (starts_with sub) (tails s).

(** The left-to-right scan shared by [str.replace] and [re.sub]: at each
    position the matcher [m] is asked how many characters match there; a
    match is replaced by [repl] and the scan resumes behind it, otherwise
    the character is copied.  [skip] counts the characters of the current
    match that are still to be passed over.  Both matchers of this program
    match at least one character; a matcher answering [0] has [repl] put in
    front of the current character. *)
Fixpoint scan (m : str -> option nat) (repl : str) (skip : nat) (s : str) : str :=
  match s with
  | [] => []
  | c :: s' =>
      match skip with
      | S k => scan m repl k s'
      | O =>
          match m s with
          | Some (S k) => repl ++ scan m repl k s'
          | Some O => repl ++ c :: scan m repl 0 s'
          | None => c :: scan m repl 0 s'
          end
      end
  end.

(** The matcher of [str.replace]: the literal [old] at the current position. *)
Definition literal_here (old s : str) : option nat :=
  if starts_with old s then Some (length old) else None.

(** [s.replace(old, new)].  With an empty [old] Python puts [new] in front
    of every character and at the end. *)
Definition str_replace (old new s : str) : str :=
  match old with
  | [] => new ++ flat_map (fun c => c :: new) s
  | _ :: _ => scan (literal_here old) new 0 s
  end.

(** *** Regular expressions

    The pattern of the program parses (sre_parse) to a sequence of
    one-character nodes and one greedy repetition of a one-character node;
    this fragment of [re] is modelled, with the backtracking of the
    repetition. *)

Inductive atom :=
| LITERAL (c : N)        (* the character [c] *)
| NOT_LITERAL (c : N).   (* [[^c]]: any character but [c], newline included *)

Inductive node :=
| One (a : atom)
| MAX_REPEAT (lo : nat) (a : atom).   (* [a{lo,}], greedy; [a+] is [a{1,}] *)

Definition regex := list node.

Definition atom_ok (a : atom) (c : N) : bool :=
  match a with
  | LITERAL x => c =? x
  | NOT_LITERAL x => negb (c =? x)
  end.

(** How far the repetition of [a] can run from the start of [s]. *)
Fixpoint run_length (a : atom) (s : str) : nat :=
  match s with
  | c :: s' => if atom_ok a c then S (run_length a s') else O
  | [] => O
  end.

(** Greedy repetition: the rest of the pattern, [k], is tried behind [n]
    repetitions, then [n - 1], and so on down to [lo]. *)
Fixpoint backtrack (k : str -> option nat) (lo n : nat) (s : str) : option nat :=
  if (n <? lo)%nat then None
  else
    match k (drop n s) with
    | Some m => Some (n + m)%nat
    | None =>
        match n with
        | O => None
        | S n' => backtrack k lo n' s
        end
    end.

(** [re.match]: the number of characters matched at the start of [s]. *)
Fixpoint match_here (re : regex) (s : str) : option nat :=
  match re with
  | [] => Some O
  | One a :: re' =>
      match s with
      | c :: s' => if atom_ok a c then S <$> match_here re' s' else None
      | [] => None
      end
  | MAX_REPEAT lo a :: re' =>
      backtrack (match_here re') lo (run_length a s) s
  end.

(** [re.sub(re, repl, s)] for a replacement without group references. *)
Definition re_sub (re : regex) (repl s : str) : str :=
  scan (match_here re) repl 0 s.

Definition literals (s : string) : regex :=
  List.map (fun c => One (LITERAL c)) (py s).

(** [s.strip()]: the characters for which [str.isspace] holds. *)
Definition isspace (c : N) : bool :=
  ((9 <=? c) && (c <=? 13)) || ((28 <=? c) && (c <=? 32))
  || (c =? 133) || (c =? 160) || (c =? 5760)
  || ((8192 <=? c) && (c <=? 8202))
  || (c =? 8232) || (c =? 8233) || (c =? 8239) || (c =? 8287) || (c =? 12288).

Fixpoint lstrip (s : str) : str :=
  match s with
  | c :: s' => if isspace c then lstrip s' else s
  | [] => []
  end.

Definition strip (s : str) : str := rev (lstrip (rev (lstrip s))).

End PyStr.
Import PyStr.

(** ** The redaction rules of [replace_pii] *)

(** The pattern [r'C:\\Users\\[^\\]+\\'] (92 is the backslash). *)
Definition home_pattern : regex :=
  literals "C:\Users"
  ++ [One (LITERAL 92); MAX_REPEAT 1 (NOT_LITERAL 92); One (LITERAL 92)].

(** The two rewriting statements of [replace_pii], in their order:
    [content.replace('USER', 'USER')], then the [re.sub]. *)
Definition redact (content : str) : str :=
  let content := str_replace (py "USER") (py "USER") content in
  re_sub home_pattern (py "/USER_HOME/") content.

(** ** Text files: the UTF-8 codec and the newline translation *)

Module Codec.

Abbreviation bytes := (list byte).

(** [bytes([n])] for [n] in [range(256)]. *)
Definition byte_of (n : N) : byte := default x00 (Byte.of_N n).

(** A continuation byte, [10xxxxxx]. *)
Definition cont (n : N) : bool := (0x80 <=? n) && (n <=? 0xBF).

Definition surrogate (c : N) : bool := (0xD800 <=? c) && (c <=? 0xDFFF).

(** [b.decode('utf-8')], errors='strict': shortest forms only, no
    surrogates, nothing above U+10FFFF; [None] is UnicodeDecodeError. *)
Fixpoint utf8_decode (b : bytes) : option str :=
  match b with
  | [] => Some []
  | b0 :: r0 =>
      let n0 := Byte.to_N b0 in
      if n0 <? 0x80 then cons n0 <$> utf8_decode r0
      else if (0xC0 <=? n0) && (n0 <? 0xE0) then
        match r0 with
        | b1 :: r1 =>
            let n1 := Byte.to_N b1 in
            let c := (n0 - 0xC0) * 64 + (n1 - 0x80) in
            if cont n1 && (0x80 <=? c) then cons c <$> utf8_decode r1 else None
        | _ => None
        end
      else if (0xE0 <=? n0) && (n0 <? 0xF0) then
        match r0 with
        | b1 :: b2 :: r2 =>
            let n1 := Byte.to_N b1 in
            let n2 := Byte.to_N b2 in
            let c := (n0 - 0xE0) * 4096 + (n1 - 0x80) * 64 + (n2 - 0x80) in
            if cont n1 && cont n2 && (0x800 <=? c) && negb (surrogate c)
            then cons c <$> utf8_decode r2 else None
        | _ => None
        end
      else if (0xF0 <=? n0) && (n0 <? 0xF8) then
        match r0 with
        | b1 :: b2 :: b3 :: r3 =>
            let n1 := Byte.to_N b1 in
            let n2 := Byte.to_N b2 in
            let n3 := Byte.to_N b3 in
            let c := (n0 - 0xF0) * 262144 + (n1 - 0x80) * 4096
                     + (n2 - 0x80) * 64 + (n3 - 0x80) in
            if cont n1 && cont n2 && cont n3 && (0x10000 <=? c) && (c <=? 0x10FFFF)
            then cons c <$> utf8_decode r3 else None
        | _ => None
        end
      else None
  end.

(** The UTF-8 form of one code point; [None] is UnicodeEncodeError
    (a surrogate; a Python [str] holds nothing above U+10FFFF). *)
Definition utf8_char (c : N) : option bytes :=
  if c <? 0x80 then Some [byte_of c]
  else if c <? 0x800 then
    Some [byte_of (0xC0 + c / 64); byte_of (0x80 + c mod 64)]
  else if c <? 0x10000 then
    if surrogate c then None
    else Some [byte_of (0xE0 + c / 4096); byte_of (0x80 + (c / 64) mod 64);
               byte_of (0x80 + c mod 64)]
  else if c <=? 0x10FFFF then
    Some [byte_of (0xF0 + c / 262144); byte_of (0x80 + (c / 4096) mod 64);
          byte_of (0x80 + (c / 64) mod 64); byte_of (0x80 + c mod 64)]
  else None.

(** [s.encode('utf-8')]. *)
Fixpoint utf8_encode (s : str) : option bytes :=
  match s with
  | [] => Some []
  | c :: s' =>
      match utf8_char c, utf8_encode s' with
      | Some b, Some r => Some (b ++ r)
      | _, _ => None
      end
  end.

(** Reading in text mode with the default [newline=None]: a carriage
    return, with the line feed that follows it if there is one, is read as
    one line feed (10 is the line feed, 13 the carriage return). *)
Fixpoint universal_newlines (s : str) : str :=
  match s with
  | [] => []
  | c :: s' =>
      if c =? 13 then
        10 :: match s' with
              | d :: s'' =>
                  if d =? 10 then universal_newlines s'' else universal_newlines s'
              | [] => []
              end
      else c :: universal_newlines s'
  end.

(** Writing in text mode with the default [newline=None]: every line feed
    is written as [os.linesep], when that is not the line feed itself. *)
Definition write_newlines (linesep s : str) : str :=
  if decide (linesep = [10]) then s else str_replace [10] linesep s.

(** The lines a text file iterates over, each with its line feed. *)
Fixpoint readlines (s : str) : list str :=
  match s with
  | [] => []
  | c :: s' =>
      if c =? 10 then [c] :: readlines s'
      else
        match readlines s' with
        | [] => [[c]]
        | l :: ls => (c :: l) :: ls
        end
  end.

(** *** Iterating over a text file

    [for line in f] does not read the file at once: each time the lines it
    holds are used up, the text layer asks the file for one more block of
    bytes, decodes it with an incremental decoder, translates the line ends
    and goes on.  So a byte that cannot be decoded raises when its block is
    decoded, behind the lines of the blocks before. *)

(** The test the UTF-8 decoder makes on the byte behind a three-byte and a
    four-byte lead: a continuation byte that gives neither an overlong
    form, nor a surrogate, nor a code point above U+10FFFF. *)
Definition second_of_three (n0 n1 : N) : bool :=
  cont n1 && negb (if n1 <? 0xA0 then n0 =? 0xE0 else n0 =? 0xED).

Definition second_of_four (n0 n1 : N) : bool :=
  cont n1 && negb (if n1 <? 0x90 then n0 =? 0xF0 else n0 =? 0xF4).

Definition decoded (c : N) (r : option (str * bytes)) : option (str * bytes) :=
  (fun p => (c :: p.1, p.2)) <$> r.

(** One call of the incremental UTF-8 decoder,
    [codecs.getincrementaldecoder('utf-8')().decode(b, final)], on the
    bytes kept from the call before followed by the new ones: the text
    decoded and the bytes kept for the next call, or [None] for
    UnicodeDecodeError.  A sequence that the end of [b] cuts short is kept
    if the bytes it has pass the tests of the decoder, and so is a cut
    surrogate ([ED] and one byte of [A0] to [BF]); with [final] nothing is
    kept, a cut sequence is an error. *)
Fixpoint utf8_decode_stateful (final : bool) (b : bytes) : option (str * bytes) :=
  let cut := if final then None else Some ([], b) in
  match b with
  | [] => Some ([], [])
  | b0 :: r0 =>
      let n0 := Byte.to_N b0 in
      if n0 <? 0x80 then decoded n0 (utf8_decode_stateful final r0)
      else if n0 <? 0xC2 then None
      else if n0 <? 0xE0 then
        match r0 with
        | [] => cut
        | b1 :: r1 =>
            let n1 := Byte.to_N b1 in
            if cont n1
            then decoded ((n0 - 0xC0) * 64 + (n1 - 0x80)) (utf8_decode_stateful final r1)
            else None
        end
      else if n0 <? 0xF0 then
        match r0 with
        | [] => cut
        | b1 :: r1 =>
            let n1 := Byte.to_N b1 in
            match r1 with
            | [] =>
                if (n0 =? 0xED) && (0xA0 <=? n1) && (n1 <=? 0xBF) then cut
                else if second_of_three n0 n1 then cut else None
            | b2 :: r2 =>
                let n2 := Byte.to_N b2 in
                if second_of_three n0 n1 && cont n2
                then decoded ((n0 - 0xE0) * 4096 + (n1 - 0x80) * 64 + (n2 - 0x80))
                       (utf8_decode_stateful final r2)
                else None
            end
        end
      else if n0 <? 0xF5 then
        match r0 with
        | [] => cut
        | b1 :: r1 =>
            let n1 := Byte.to_N b1 in
            if second_of_four n0 n1 then
              match r1 with
              | [] => cut
              | b2 :: r2 =>
                  let n2 := Byte.to_N b2 in
                  if cont n2 then
                    match r2 with
                    | [] => cut
                    | b3 :: r3 =>
                        let n3 := Byte.to_N b3 in
                        if cont n3
                        then decoded ((n0 - 0xF0) * 262144 + (n1 - 0x80) * 4096
                                      + (n2 - 0x80) * 64 + (n3 - 0x80))
                               (utf8_decode_stateful final r3)
                        else None
                    end
                  else None
              end
            else None
        end
      else None
  end.

(** [TextIOWrapper._CHUNK_SIZE]: the bytes asked of the file at a time. *)
Definition chunk_size : nat := N.to_nat 8192.

(** The blocks the reads of a file of content [b] return, before the read
    that returns nothing; [n] bounds their number. *)
Fixpoint blocks (n : nat) (b : bytes) : list bytes :=
  match n, b with
  | S n', _ :: _ => take chunk_size b :: blocks n' (drop chunk_size b)
  | _, _ => []
  end.

(** A file has no more blocks than bytes. *)
Definition read_blocks (b : bytes) : list bytes := blocks (length b) b.

(** One call of the newline decoder of the text layer
    ([io.IncrementalNewlineDecoder.decode], translating) on the text
    [output] of the bytes decoder: a carriage return at the end of a block
    is held back, [pendingcr], until the next block shows whether a line
    feed follows it. *)
Definition newline_decode (final pendingcr : bool) (output : str) : str * bool :=
  let '(output, pendingcr) :=
    if pendingcr && (final || negb (bool_decide (output = [])))
    then (13 :: output, false) else (output, pendingcr) in
  let '(output, pendingcr) :=
    if negb final && bool_decide (last output = Some 13)
    then (removelast output, true) else (output, pendingcr) in
  (universal_newlines output, pendingcr).

(** The lines that [s] holds in full, each with its line feed, and the
    text behind the last line feed. *)
Fixpoint complete_lines (s : str) : list str * str :=
  match s with
  | [] => ([], [])
  | c :: s' =>
      let '(ls, rest) := complete_lines s' in
      if c =? 10 then ([c] :: ls, rest)
      else
        match ls with
        | [] => ([], c :: rest)
        | l :: ls' => ((c :: l) :: ls', rest)
        end
  end.

(** [for line in f], for a file read in the blocks [bs]: the lines the
    iteration yields, in order, and whether it ends with UnicodeDecodeError
    behind them.  [kept] are the bytes the decoder has kept, [buffer] the text
    decoded and not yet part of a line.  The lines a block completes are
    yielded before the next block is read; when the file is at its end the
    decoder is flushed and what is left is the last line. *)
Fixpoint text_lines (decoder : bool -> bytes -> option (str * bytes))
    (bs : list bytes) (kept : bytes) (pendingcr : bool) (buffer : str)
  : list str * bool :=
  match bs with
  | [] =>
      match decoder true kept with
      | None => ([], true)
      | Some (output, _) =>
          let '(text, _) := newline_decode true pendingcr output in
          (readlines (buffer ++ text), false)
      end
  | block :: bs' =>
      match decoder false (kept ++ block) with
      | None => ([], true)
      | Some (output, kept') =>
          let '(text, pendingcr') := newline_decode false pendingcr output in
          let '(lines, buffer') := complete_lines (buffer ++ text) in
          let '(more, failed) := text_lines decoder bs' kept' pendingcr' buffer' in
          (lines ++ more, failed)
      end
  end.



End Codec.
Import Codec.

(** ** The operating system *)

Module OS.

(** The exceptions the program can meet; all are subclasses of [Exception]. *)
Inductive exn :=
| FileNotFoundError
| IsADirectoryError
| PermissionError
| UnicodeDecodeError
| UnicodeEncodeError.

(** How a Python computation ends. *)
Inductive outcome (A : Type) :=
| Returned (a : A)
| Raised (e : exn).
Arguments Returned {A} a.
Arguments Raised {A} e.

Record file := mkfile {
  f_data : bytes;
  f_readable : bool;
  f_writable : bool }.

Inductive entry :=
| Regular (f : file)
| Directory.

(** The modes the program passes to [open]. *)
Inductive mode := RB | R | W.

(** What the program does to the world, in the order it does it: the
    [os.system] calls, the [open] calls, and the line
    [Error processing {path}: {e}] printed by the handler of [replace_pii]. *)
Inductive event :=
| System (cmd : string)
| Open (path : str) (m : mode)
| PrintError (path : str) (e : exn).

#[global] Instance exn_eq_dec : EqDecision exn.
Proof. solve_decision. Defined.

#[global] Instance mode_eq_dec : EqDecision mode.
Proof. solve_decision. Defined.

#[global] Instance event_eq_dec : EqDecision event.
Proof. solve_decision. Defined.

(** [os.name]. *)
Inductive os_name := Posix | Nt.

(** What differs between the platforms: [os.name], and the encoding [open]
    uses when none is given, as its incremental decoder. *)
Record platform := mkplatform {
  name : os_name;
  locale_decoder : bool -> bytes -> option (str * bytes) }.

(** [os.linesep]. *)
Definition linesep (os : platform) : str :=
  match name os with
  | Posix => [10]
  | Nt => [13; 10]
  end.

Definition posix : platform :=
  {| name := Posix; locale_decoder := utf8_decode_stateful |}.

(** Windows, in UTF-8 mode. *)
Definition windows : platform :=
  {| name := Nt; locale_decoder := utf8_decode_stateful |}.

(** The world: the working tree (a path names at most one entry), what
    [git ls-files] prints in it, what [git add .] makes of a working tree
    (the content it stages, or [None] where the command fails: which files
    it takes and which it ignores is git's business), what the run has
    staged ([None]: nothing yet), and the trace of events, oldest first. *)
Record world := mkworld {
  w_fs : gmap str entry;
  w_ls_files : bytes;
  w_git_add : gmap str entry -> option (gmap str bytes);
  w_staged : option (gmap str bytes);
  w_trace : list event }.

Definition set_fs (fs : gmap str entry) (w : world) : world :=
  {| w_fs := fs; w_ls_files := w_ls_files w; w_git_add := w_git_add w;
     w_staged := w_staged w; w_trace := w_trace w |}.

Definition set_staged (st : gmap str bytes) (w : world) : world :=
  {| w_fs := w_fs w; w_ls_files := w_ls_files w; w_git_add := w_git_add w;
     w_staged := Some st; w_trace := w_trace w |}.

Definition add_event (e : event) (w : world) : world :=
  {| w_fs := w_fs w; w_ls_files := w_ls_files w; w_git_add := w_git_add w;
     w_staged := w_staged w; w_trace := w_trace w ++ [e] |}.

(** A Python computation: from a world, an outcome and the world after. *)
Definition M (A : Type) : Type := world -> outcome A * world.

#[global] Instance M_ret : MRet M := fun A a w => (Returned a, w).

#[global] Instance M_bind : MBind M := fun A B k c w =>
  match c w with
  | (Returned a, w') => k a w'
  | (Raised e, w') => (Raised e, w')
  end.

Definition raise {A} (e : exn) : M A := fun w => (Raised e, w).

(** [try: c  except ...: h]. *)
Definition try_except {A} (c : M A) (h : exn -> M A) : M A := fun w =>
  match c w with
  | (Returned a, w') => (Returned a, w')
  | (Raised e, w') => h e w'
  end.

Definition log (e : event) : M unit := fun w => (Returned tt, add_event e w).

(** Opening for reading: the bytes of the file, or the error. *)
Definition fs_read (fs : gmap str entry) (path : str) : exn + bytes :=
  match fs !! path with
  | None => inl FileNotFoundError
  | Some Directory => inl IsADirectoryError
  | Some (Regular f) => if f_readable f then inr (f_data f) else inl PermissionError
  end.

(** Opening for writing creates the file or empties it. *)
Definition fs_create (fs : gmap str entry) (path : str) : exn + gmap str entry :=
  match fs !! path with
  | None => inr (<[path := Regular (mkfile [] true true)]> fs)
  | Some Directory => inl IsADirectoryError
  | Some (Regular f) =>
      if f_writable f
      then inr (<[path := Regular (mkfile [] (f_readable f) true)]> fs)
      else inl PermissionError
  end.

(** Writing to a file that has been opened for writing. *)
Definition fs_write (fs : gmap str entry) (path : str) (data : bytes) : gmap str entry :=
  match fs !! path with
  | Some (Regular f) =>
      <[path := Regular (mkfile (f_data f ++ data) (f_readable f) (f_writable f))]> fs
  | _ => fs
  end.

(** The file system calls behind [open] and the shell's redirection. *)
Definition sys_read (path : str) : M bytes := fun w =>
  match fs_read (w_fs w) path with
  | inr b => (Returned b, w)
  | inl e => (Raised e, w)
  end.

Definition sys_create (path : str) : M unit := fun w =>
  match fs_create (w_fs w) path with
  | inr fs => (Returned tt, set_fs fs w)
  | inl e => (Raised e, w)
  end.

(** [open(path, 'rb')] or [open(path, 'r')], as the bytes behind the handle. *)
Definition open_read (path : str) (m : mode) : M bytes :=
  log (Open path m) ;; sys_read path.

(** [open(path, 'w')]. *)
Definition open_write (path : str) : M unit :=
  log (Open path W) ;; sys_create path.

Definition write_bytes (path : str) (data : bytes) : M unit := fun w =>
  (Returned tt, set_fs (fs_write (w_fs w) path data) w).

(** [with open(path, 'r', encoding=...) as f: f.read()]. *)
Definition read_text (decode : bytes -> option str) (path : str) : M str :=
  b ← open_read path R;
  match decode b with
  | Some s => mret (universal_newlines s)
  | None => raise UnicodeDecodeError
  end.

(** [with open(path, 'w', encoding='utf-8') as f: f.write(content)]: the
    file is emptied when it is opened, before the text is encoded. *)
Definition write_text (os : platform) (path content : str) : M unit :=
  open_write path ;;
  match utf8_encode (write_newlines (linesep os) content) with
  | Some b => write_bytes path b
  | None => raise UnicodeEncodeError
  end.

Definition print_error (path : str) (e : exn) : M unit := log (PrintError path e).

(** The content of every regular file of the working tree. *)
Definition snapshot (fs : gmap str entry) : gmap str bytes :=
  omap (fun e => match e with Regular f => Some (f_data f) | Directory => None end) fs.

(** What [git ls-files] prints. *)
Definition git_ls_files : M bytes := fun w => (Returned (w_ls_files w), w).

(** [git add .] on the working tree as it is: what git takes of it is
    staged and the status is zero, or the command fails, nothing is staged
    and the status is not zero. *)
Definition git_add_all : M N := fun w =>
  match w_git_add w (w_fs w) with
  | Some st => (Returned 0, set_staged st w)
  | None => (Returned 32768, w)
  end.

(** A repository without ignore rules, in which [git add .] succeeds:
    every regular file is staged with its content. *)
Definition git_add_everything (fs : gmap str entry) : option (gmap str bytes) :=
  Some (snapshot fs).

(** [os.system(cmd)] for the two commands of the program; the exit status
    is returned, never raised.  For [git ls-files > tracked_files.txt] the
    shell opens the target of the redirection for writing and, if it can,
    runs git with its standard output there; if it cannot, git is not run
    and the status is not zero. *)
Definition os_system (cmd : string) : M N :=
  log (System cmd) ;;
  if decide (cmd = "git ls-files > tracked_files.txt"%string) then
    try_except
      (sys_create (py "tracked_files.txt") ;;
       out ← git_ls_files;
       write_bytes (py "tracked_files.txt") out ;;
       mret 0)
      (fun _ => mret 512)
  else if decide (cmd = "git add ."%string) then
    git_add_all
  else mret 32512.

(** [for x in l: body(x)]. *)
Fixpoint for_each {A} (l : list A) (body : A -> M unit) : M unit :=
  match l with
  | [] => mret tt
  | x :: l' => body x ;; for_each l' body
  end.

(** [for line in f: body(line)] for a text file [f] opened for reading on
    the bytes [data]: the body runs on every line the iteration yields, and
    if the iteration ends with an error, that is raised behind them. *)
Definition for_each_line (decoder : bool -> bytes -> option (str * bytes))
    (data : bytes) (body : str -> M unit) : M unit :=
  let '(lines, failed) := text_lines decoder (read_blocks data) [] false [] in
  for_each lines body ;;
  if failed then raise UnicodeDecodeError else mret tt.

End OS.
Import OS.

(** ** The program *)

Section Program.

Variable os : platform.

(** [textchars]: the bytes of a text file. *)
Definition textchars : bytes :=
  List.map byte_of
    (list_union [7; 8; 9; 10; 12; 13; 27]
       (list_difference (N.of_nat <$> seq 0x20 (0x100 - 0x20)) [0x7f])).

(** [b.translate(None, delete)]: [b] without the bytes that are in [delete]. *)
Definition translate_delete (delete b : bytes) : bytes :=
  List.filter (fun x => negb (existsb (Byte.eqb x) delete)) b.

Definition is_binary_string (bytes_to_check : bytes) : bool :=
  match translate_delete textchars bytes_to_check with
  | [] => false
  | _ :: _ => true
  end.

(** The bare [except] catches whatever the probe raises. *)
Definition is_binary (file_path : str) : M bool :=
  try_except
    (f ← open_read file_path RB;
     mret (is_binary_string (take 1024 f)))
    (fun _ => mret true).

(** The body of the [try] statement of [replace_pii]. *)
Definition replace_pii_try (file_path : str) : M unit :=
  binary ← is_binary file_path;
  if binary
     || contains (py "vendor/") file_path
     || contains (py "node_modules/") file_path
     || contains (py ".git/") file_path
     || contains (py ".history/") file_path
     || contains (py "dist/") file_path
  then mret tt
  else
    content ← read_text utf8_decode file_path;
    let content := redact content in
    write_text os file_path content.

(** [except Exception as e: print(...)]. *)
Definition replace_pii (file_path : str) : M unit :=
  try_except
    (replace_pii_try file_path)
    (fun e => print_error file_path e).

(** The exit status of the two commands is dropped; [open] is given no
    encoding, so the listing is decoded with the encoding of the locale,
    block by block while the loop runs: an error of the iteration is raised
    by the [for] statement, behind the lines it has yielded and before the
    second command. *)
Definition main : M unit :=
  os_system "git ls-files > tracked_files.txt" ;;
  f ← open_read (py "tracked_files.txt") R;
  for_each_line (locale_decoder os) f (fun line =>
    let file_path := strip line in
    replace_pii file_path) ;;
  os_system "git add ." ;;
  mret tt.

End Program.

(** ** What the specification says of the redaction *)

(** The text [C:\Users\], which every match of the pattern begins with. *)
Definition home_prefix : str := py "C:\Users" ++ [92].

(** An occurrence of the pattern [C:\Users\<segment>\]: the segment is one
    or more characters, none of them a backslash. *)
Definition occurrence (m : str) : Prop :=
  ∃ seg, seg ≠ [] ∧ Forall (λ c, c ≠ 92) seg ∧ m = home_prefix ++ seg ++ [92].

(** No occurrence of the pattern starts at the first character of [s]. *)
Definition no_occurrence_at_head (s : str) : Prop :=
  ¬ ∃ m rest, occurrence m ∧ s = m ++ rest.

(** The specification's regex replacement, in its words: from left to
    right, every occurrence of the pattern gives the text [/USER_HOME/],
    and every other character is left as it is. *)
Inductive redacted : str -> str -> Prop :=
| redacted_nil : redacted [] []
| redacted_occurrence m rest out :
    occurrence m -> redacted rest out ->
    redacted (m ++ rest) (py "/USER_HOME/" ++ out)
| redacted_other c s out :
    no_occurrence_at_head (c :: s) -> redacted s out ->
    redacted (c :: s) (c :: out).

(** ** What the specification says of the classification *)

(** The allowed bytes: 0x07, 0x08, 0x09, 0x0A, 0x0C, 0x0D, 0x1B, and all of
    0x20 to 0xFF except 0x7F. *)
Definition allowed (b : byte) : Prop :=
  let n := Byte.to_N b in
  n ∈ [0x07; 0x08; 0x09; 0x0A; 0x0C; 0x0D; 0x1B]
  ∨ (0x20 <= n <= 0xFF ∧ n ≠ 0x7F).

(** Binary content: a byte that is not allowed among the first 1024. *)
Definition binary_content (data : bytes) : Prop :=
  ∃ b, b ∈ take 1024 data ∧ ¬ allowed b.

Definition substring (sub s : str) : Prop := ∃ pre post, s = pre ++ sub ++ post.

Definition exclusions : list str :=
  [py "vendor/"; py "node_modules/"; py ".git/"; py ".history/"; py "dist/"].

(** An excluded path: one of the exclusions is a substring of it. *)
Definition excluded (path : str) : Prop :=
  ∃ d, d ∈ exclusions ∧ substring d path.

(** An eligible file: a regular file whose probe reports text, at a path
    that is not excluded. *)
Definition eligible (w : world) (path : str) : Prop :=
  fst (is_binary path w) = Returned false ∧ ¬ excluded path.

(** No occurrence of either redaction pattern in [s]. *)
Definition no_pattern (s : str) : Prop :=
  ¬ substring (py "USER") s ∧ ¬ ∃ m, occurrence m ∧ substring m s.

(** Text whose lines all end the Windows way: no line feed without a
    carriage return before it, no carriage return without a line feed
    behind it. *)
Fixpoint crlf_lines (s : str) : bool :=
  match s with
  | [] => true
  | c :: s' =>
      if c =? 13 then
        match s' with
        | d :: s'' => (d =? 10) && crlf_lines s''
        | [] => false
        end
      else negb (c =? 10) && crlf_lines s'
  end.

(** ** What the specification says of the run *)

(** The events a computation adds to the trace of [w]. *)
Definition events_of {A} (c : M A) (w : world) : list event :=
  drop (length (w_trace w)) (w_trace (snd (c w))).

Definition tracked_files : str := py "tracked_files.txt".

Definition ls_command : string := "git ls-files > tracked_files.txt".

Definition add_command : string := "git add .".

(** The [os.system] calls among the events. *)
Definition is_system (e : event) : Prop := ∃ cmd, e = System cmd.

(** The loop of [main]. *)
Definition process_lines (os : platform) (lines : list str) : M unit :=
  for_each lines (λ line, replace_pii os (strip line)).

(** The lines the loop of [main] gets from a listing file of content
    [data], and whether the iteration ends with UnicodeDecodeError. *)
Definition listing_lines (os : platform) (data : bytes) : list str * bool :=
  text_lines (locale_decoder os) (read_blocks data) [] false [].

(** ** What [replace_pii] makes of the working tree *)

(** The test of [replace_pii] on the path. *)
Definition excluded_path (path : str) : bool :=
  contains (py "vendor/") path
  || contains (py "node_modules/") path
  || contains (py ".git/") path
  || contains (py ".history/") path
  || contains (py "dist/") path.

(** The entry [replace_pii] leaves where it found [e], at a path that is
    not excluded: a regular file that can be read and written, that the
    probe takes for text and that decodes, holds its redacted text; any
    other entry is kept. *)
Definition rewritten (os : platform) (e : entry) : entry :=
  match e with
  | Directory => Directory
  | Regular f =>
      if f_readable f && negb (is_binary_string (take 1024 (f_data f)))
         && f_writable f
      then
        match utf8_decode (f_data f) with
        | Some text =>
            match utf8_encode (write_newlines (linesep os)
                                 (redact (universal_newlines text))) with
            | Some data => Regular (mkfile data (f_readable f) true)
            | None => Regular (mkfile [] (f_readable f) true)
            end
        | None => e
        end
      else e
  end.

(** The working tree [replace_pii] leaves. *)
Definition processed (os : platform) (path : str) (fs : gmap str entry) :
  gmap str entry :=
  if excluded_path path then fs else alter (rewritten os) path fs.

(** ** Worlds for the examples *)

(** The bytes of an ASCII text. *)
Definition ascii_bytes (s : string) : bytes := List.map byte_of (py s).

Definition text_file (data : bytes) : entry := Regular (mkfile data true true).

(** A tree with one file, and git listing it. *)
Definition one_file (path : string) (data : bytes) : world :=
  {| w_fs := {[ py path := text_file data ]};
     w_ls_files := ascii_bytes path ++ [x0a];
     w_git_add := git_add_everything;
     w_staged := None;
     w_trace := [] |}.

(** An image: a NUL byte among the first bytes. *)
Definition w_image : world := one_file "logo.png" [x89; x50; x4e; x47; x00; x0d].

(** A vendored file with a home path in it. *)
Definition w_vendor : world :=
  one_file "vendor/lib/util.py" (ascii_bytes "home = 'C:\Users\alice\x'").

(** Two lines, ended the Windows way, and nothing to redact. *)
Definition w_crlf : world := one_file "notes.txt" [x61; x0d; x0a; x62; x0d; x0a].

(** Two lines, ended the Unix way, and nothing to redact. *)
Definition w_lf : world := one_file "notes.txt" [x61; x0a; x62; x0a].


(** A text file that cannot be opened for reading. *)
Definition w_unreadable : world :=
  {| w_fs := {[ py "secret.txt" := Regular (mkfile [x61; x0a] false true) ]};
     w_ls_files := ascii_bytes "secret.txt" ++ [x0a];
     w_git_add := git_add_everything;
     w_staged := None;
     w_trace := [] |}.

(** A tree in which [tracked_files.txt] is a directory. *)
Definition w_listing_dir : world :=
  {| w_fs := {[ py "a.txt" := text_file [x61; x0a]; tracked_files := Directory ]};
     w_ls_files := ascii_bytes "a.txt" ++ [x0a];
     w_git_add := git_add_everything;
     w_staged := None;
     w_trace := [] |}.

(** A tree in which [tracked_files.txt] is left from before, read-only. *)
Definition w_listing_readonly : world :=
  {| w_fs := {[ py "a.txt" := text_file [x61; x0a];
                tracked_files := Regular (mkfile (ascii_bytes "old.txt" ++ [x0a]) true false) ]};
     w_ls_files := ascii_bytes "a.txt" ++ [x0a];
     w_git_add := git_add_everything;
     w_staged := None;
     w_trace := [] |}.

(** A tree with two files, of which git lists the first. *)
Definition w_two : world :=
  {| w_fs := {[ py "conf.ini" := text_file (ascii_bytes "home=C:\Users\alice\cfg");
                py "notes.md" := text_file (ascii_bytes "see C:\Users\bob\x") ]};
     w_ls_files := ascii_bytes "conf.ini" ++ [x0a];
     w_git_add := git_add_everything;
     w_staged := None;
     w_trace := [] |}.

(** ** The claims as the specification states them, where the program
    does otherwise *)

(** The round trip, for the file at [path]: if the file is eligible and its
    content has no occurrence of either pattern, [replace_pii] leaves the
    content as it was, up to its UTF-8 encoding. *)
Definition content_kept (os : platform) (w : world) (path : str) : Prop :=
  ∀ f text,
    w_fs w !! path = Some (Regular f) -> eligible w path ->
    utf8_decode (f_data f) = Some text -> no_pattern text ->
    ∃ f', w_fs (snd (replace_pii os path w)) !! path = Some (Regular f')
          ∧ utf8_decode (f_data f') = Some text.




(** The listing file, for the run from [w]: the run puts what git lists
    into [tracked_files.txt], and stages that file with the rest. *)
Definition listing_written_and_staged (os : platform) (w : world) : Prop :=
  (∃ f, w_fs (snd (os_system ls_command w)) !! tracked_files = Some (Regular f)
        ∧ f_data f = w_ls_files w)
  ∧ (∃ st, w_staged (snd (main os w)) = Some st ∧ is_Some (st !! tracked_files)).

(** ** The model on examples *)

Example utf8_decode_sample :
  utf8_decode [x41; xc3; xa9; xe2; x82; xac; xf0; x9f; x98; x80]
  = Some [65; 233; 8364; 128512].
Proof. reflexivity. Qed.

Example utf8_decode_strict :
  utf8_decode [xc0; x80] = None
  ∧ utf8_decode [xed; xa0; x80] = None
  ∧ utf8_decode [xf4; x90; x80; x80] = None
  ∧ utf8_decode [x63; x61; x66; xe9; x0a] = None.
Proof. repeat split; reflexivity. Qed.

Example universal_newlines_sample :
  universal_newlines (py "ab" ++ [13; 10; 13] ++ py "cd" ++ [10])
  = py "ab" ++ [10; 10] ++ py "cd" ++ [10].
Proof. reflexivity. Qed.

Example readlines_sample :
  readlines (py "a.txt" ++ [10] ++ py "src/b c.py" ++ [10])
  = [py "a.txt" ++ [10]; py "src/b c.py" ++ [10]].
Proof. reflexivity. Qed.

Example strip_sample : strip (py "  src/b c.py " ++ [10]) = py "src/b c.py".
Proof. reflexivity. Qed.

Example str_replace_sample :
  str_replace (py "aa") (py "b") (py "aaaxaa") = py "baxb".
Proof. reflexivity. Qed.

(** Matches do not overlap: the first one takes [C:] as its segment. *)
Example redact_overlapping :
  redact (py "C:\Users\C:\Users\bob" ++ [92]) = py "/USER_HOME/Users\bob" ++ [92].
Proof. reflexivity. Qed.

(** A segment cannot be empty, and needs its closing backslash. *)
Example redact_no_segment :
  redact (py "C:\Users" ++ [92; 92] ++ py "x") = py "C:\Users" ++ [92; 92] ++ py "x"
  ∧ redact (py "C:\Users\alice") = py "C:\Users\alice".
Proof. split; reflexivity. Qed.

(** A run on a tree with one vendored file: the file is probed and left. *)
Example main_vendor :
  fst (main posix w_vendor) = Returned tt
  ∧ events_of (main posix) w_vendor
    = [System ls_command; Open tracked_files R;
       Open (py "vendor/lib/util.py") RB; System add_command]
  ∧ w_fs (snd (main posix w_vendor)) !! py "vendor/lib/util.py"
    = w_fs w_vendor !! py "vendor/lib/util.py".
Proof. repeat split; vm_compute; reflexivity. Qed.

(** The listing file is created by the run, and staged with the rest. *)
Example listing_file_staged :
  w_fs w_vendor !! tracked_files = None
  ∧ w_fs (snd (main posix w_vendor)) !! tracked_files
    = Some (text_file (ascii_bytes "vendor/lib/util.py" ++ [x0a]))
  ∧ (w_staged (snd (main posix w_vendor)) ≫= lookup tracked_files)
    = Some (ascii_bytes "vendor/lib/util.py" ++ [x0a]).
Proof. repeat split; vm_compute; reflexivity. Qed.

(** A run on a tree with one file to redact. *)
Example main_redacts :
  let w := one_file "conf.ini" (ascii_bytes "home=C:\Users\alice\cfg") in
  events_of (main posix) w
  = [System ls_command; Open tracked_files R; Open (py "conf.ini") RB;
     Open (py "conf.ini") R; Open (py "conf.ini") W; System add_command]
  ∧ w_fs (snd (main posix w)) !! py "conf.ini"
    = Some (text_file (ascii_bytes "home=/USER_HOME/cfg")).
Proof. split; vm_compute; reflexivity. Qed.

(** An image is skipped on the probe alone. *)
Example image_skipped :
  replace_pii posix (py "logo.png") w_image
  = (Returned tt, add_event (Open (py "logo.png") RB) w_image).
Proof. vm_compute. reflexivity. Qed.

(** A file that cannot be written: the error is printed, the file is left. *)
Example readonly_file_logged :
  let w := {| w_fs := {[ py "locked.txt" := Regular (mkfile [x61; x0a] true false) ]};
              w_ls_files := ascii_bytes "locked.txt" ++ [x0a];
              w_git_add := git_add_everything;
              w_staged := None; w_trace := [] |} in
  fst (main posix w) = Returned tt
  ∧ events_of (main posix) w
    = [System ls_command; Open tracked_files R; Open (py "locked.txt") RB;
       Open (py "locked.txt") R; Open (py "locked.txt") W;
       PrintError (py "locked.txt") PermissionError; System add_command]
  ∧ w_fs (snd (main posix w)) !! py "locked.txt" = w_fs w !! py "locked.txt".
Proof. repeat split; vm_compute; reflexivity. Qed.

(** The repetition gives back what the rest of the pattern needs. *)
Example backtrack_sample :
  match_here [MAX_REPEAT 1 (LITERAL 97); One (LITERAL 97)] (py "aaab") = Some 3%nat
  ∧ match_here [MAX_REPEAT 1 (LITERAL 97); One (LITERAL 97)] (py "ab") = None.
Proof. split; reflexivity. Qed.

(** Where [tracked_files.txt] is a directory, [main] raises. *)
Example main_listing_dir :
  fst (main posix w_listing_dir) = Raised IsADirectoryError
  ∧ events_of (main posix) w_listing_dir = [System ls_command; Open tracked_files R]
  ∧ w_staged (snd (main posix w_listing_dir)) = None.
Proof. repeat split; vm_compute; reflexivity. Qed.

(** Iterating over a listing: the last line need not end with a line feed,
    and carriage returns are read as line feeds. *)
Example listing_lines_sample :
  listing_lines posix (ascii_bytes "a.txt" ++ [x0a] ++ ascii_bytes "b.txt")
  = ([py "a.txt" ++ [10]; py "b.txt"], false)
  ∧ listing_lines posix [x61; x0d; x0a; x62; x0d; x63] = ([[97; 10]; [98; 10]; [99]], false)
  ∧ listing_lines posix [] = ([], false).
Proof. repeat split; vm_compute; reflexivity. Qed.

(** A listing that ends in the middle of a character: the line before is
    yielded, then the iteration raises.  A byte that is no UTF-8 raises
    with its block: the line before it in the block is not yielded. *)
Example listing_lines_cut :
  listing_lines posix (ascii_bytes "a.txt" ++ [x0a; xe2; x82]) = ([py "a.txt" ++ [10]], true)
  ∧ listing_lines posix (ascii_bytes "a.txt" ++ [x0a; xed; xa0]) = ([py "a.txt" ++ [10]], true)
  ∧ listing_lines posix (ascii_bytes "a.txt" ++ [x0a; xff; x0a]) = ([], true).
Proof. repeat split; vm_compute; reflexivity. Qed.

(** A first line that fills the first block is yielded before the second
    block is decoded; a carriage return at the end of a block is held back,
    and with it the line. *)
Example listing_lines_blocks :
  listing_lines posix (replicate (N.to_nat 8191) x61 ++ [x0a] ++ ascii_bytes "b.txt" ++ [x0a; xff])
  = ([replicate (N.to_nat 8191) 97 ++ [10]], true)
  ∧ listing_lines posix (replicate (N.to_nat 8191) x61 ++ [x0d; xff]) = ([], true)
  ∧ listing_lines posix (replicate (N.to_nat 8191) x61 ++ [x0d; x0a; x62])
    = ([replicate (N.to_nat 8191) 97 ++ [10]; [98]], false).
Proof. repeat split; vm_compute; reflexivity. Qed.

(** A listing cut in the middle of a character: the file of the line before
    is processed, then [main] raises, and nothing is staged. *)
Example main_listing_cut :
  let w := {| w_fs := {[ py "conf.ini" := text_file (ascii_bytes "home=C:\Users\alice\cfg") ]};
              w_ls_files := ascii_bytes "conf.ini" ++ [x0a; xe2; x82];
              w_git_add := git_add_everything;
              w_staged := None; w_trace := [] |} in
  fst (main posix w) = Raised UnicodeDecodeError
  ∧ events_of (main posix) w
    = [System ls_command; Open tracked_files R; Open (py "conf.ini") RB;
       Open (py "conf.ini") R; Open (py "conf.ini") W]
  ∧ w_fs (snd (main posix w)) !! py "conf.ini"
    = Some (text_file (ascii_bytes "home=/USER_HOME/cfg"))
  ∧ w_staged (snd (main posix w)) = None.
Proof. repeat split; vm_compute; reflexivity. Qed.

(** Where [git add .] fails, [main] returns all the same, with nothing
    staged. *)
Example main_add_fails :
  let w := {| w_fs := {[ py "a.txt" := text_file [x61; x0a] ]};
              w_ls_files := ascii_bytes "a.txt" ++ [x0a];
              w_git_add := λ _, None;
              w_staged := None; w_trace := [] |} in
  fst (main posix w) = Returned tt
  ∧ events_of (main posix) w
    = [System ls_command; Open tracked_files R; Open (py "a.txt") RB;
       Open (py "a.txt") R; Open (py "a.txt") W; System add_command]
  ∧ w_staged (snd (main posix w)) = None.
Proof. repeat split; vm_compute; reflexivity. Qed.

(** Where git ignores [tracked_files.txt], the file is written and not
    staged. *)
Example main_listing_ignored :
  let w := {| w_fs := {[ py "a.txt" := text_file [x61; x0a] ]};
              w_ls_files := ascii_bytes "a.txt" ++ [x0a];
              w_git_add := λ fs, Some (delete tracked_files (snapshot fs));
              w_staged := None; w_trace := [] |} in
  fst (main posix w) = Returned tt
  ∧ w_fs (snd (main posix w)) !! tracked_files
    = Some (text_file (ascii_bytes "a.txt" ++ [x0a]))
  ∧ (w_staged (snd (main posix w)) ≫= lookup tracked_files) = None
  ∧ (w_staged (snd (main posix w)) ≫= lookup (py "a.txt")) = Some [x61; x0a].
Proof. repeat split; vm_compute; reflexivity. Qed.

(** A file that cannot be opened for reading is skipped on the probe, and
    nothing is printed. *)
Example unreadable_file_skipped :
  replace_pii posix (py "secret.txt") w_unreadable
  = (Returned tt, add_event (Open (py "secret.txt") RB) w_unreadable).
Proof. vm_compute. reflexivity. Qed.

(** The incremental decoder keeps what the end of the bytes cuts short. *)
Example utf8_decode_stateful_sample :
  utf8_decode_stateful false [x61; xe2; x82] = Some ([97], [xe2; x82])
  ∧ utf8_decode_stateful false [xe2; x82; xac; x62] = Some ([8364; 98], [])
  ∧ utf8_decode_stateful true [x61; xe2; x82] = None
  ∧ utf8_decode_stateful false [xe0; x80] = None
  ∧ utf8_decode_stateful false [xed; xa0] = Some ([], [xed; xa0])
  ∧ utf8_decode_stateful false [xed; xa0; x80] = None
  ∧ utf8_decode_stateful false [xf4; x90] = None
  ∧ utf8_decode_stateful false [xc1] = None.
Proof. repeat split; reflexivity. Qed.

(** ** Lemmas on strings *)

Lemma starts_with_split p s :
  starts_with p s = true -> s = p ++ drop (length p) s.
Proof.
  revert s. induction p as [|a p IH]; intros [|c s] H; simpl in *; try done.
  apply andb_true_iff in H as [Hac Hp]. apply N.eqb_eq in Hac as ->.
  f_equal. by apply IH.
Qed.

Lemma starts_with_app p s : starts_with p (p ++ s) = true.
Proof.
  induction p as [|a p IH]; simpl; [done|]. by rewrite N.eqb_refl, IH.
Qed.

Lemma scan_skip m repl k s : scan m repl k s = scan m repl 0 (drop k s).
Proof.
  revert k. induction s as [|c s IH]; intros [|k]; simpl; done.
Qed.

(** The scan, one position at a time. *)
Lemma scan_cons m repl c s :
  scan m repl 0 (c :: s) =
  match m (c :: s) with
  | Some (S k) => repl ++ scan m repl 0 (drop k s)
  | Some O => repl ++ c :: scan m repl 0 s
  | None => c :: scan m repl 0 s
  end.
Proof.
  simpl. destruct (m (c :: s)) as [[|k]|]; try done. by rewrite scan_skip.
Qed.

(** Where the matcher finds nothing, the scan copies. *)
Lemma scan_no_match m repl s :
  (∀ t, t ∈ tails s -> m t = None) -> scan m repl 0 s = s.
Proof.
  induction s as [|c s IH]; intros H; [done|].
  rewrite scan_cons, (H (c :: s)) by (simpl; left).
  f_equal. apply IH. intros t Ht. apply H. simpl. by right.
Qed.

(** Replacing a text by itself changes nothing. *)
Lemma scan_literal_self old k s : scan (literal_here old) old k s = drop k s.
Proof.
  revert k. induction s as [|c s IH]; intros [|k]; simpl; try done.
  unfold literal_here at 1.
  destruct (starts_with old (c :: s)) eqn:Hp; [|by rewrite IH].
  apply starts_with_split in Hp.
  destruct old as [|a old]; simpl in *; [by rewrite IH|].
  rewrite IH. by injection Hp as -> <-.
Qed.

Lemma str_replace_self old s : str_replace old old s = s.
Proof.
  destruct old as [|a old]; simpl.
  - induction s as [|c s IH]; simpl; [done|]. by f_equal.
  - apply (scan_literal_self (a :: old) 0 s).
Qed.

(** ** The pattern [C:\\Users\\[^\\]+\\] *)

Lemma match_here_literals p re s :
  match_here (List.map (λ c, One (LITERAL c)) p ++ re) s =
  if starts_with p s
  then (λ n, (length p + n)%nat) <$> match_here re (drop (length p) s)
  else None.
Proof.
  revert s. induction p as [|a p IH]; intros s; simpl.
  - rewrite drop_0. destruct (match_here re s); reflexivity.
  - destruct s as [|c s]; [done|]. rewrite (N.eqb_sym a c).
    destruct (c =? a); simpl; [|done]. rewrite IH.
    destruct (starts_with p s); [|done].
    destruct (match_here re _); reflexivity.
Qed.

Lemma home_pattern_split :
  home_pattern =
  List.map (λ c, One (LITERAL c)) home_prefix
  ++ [MAX_REPEAT 1 (NOT_LITERAL 92); One (LITERAL 92)].
Proof. reflexivity. Qed.

(** The run of the segment stops at the first backslash or at the end. *)
Lemma run_length_stop s :
  drop (run_length (NOT_LITERAL 92) s) s = []
  ∨ ∃ r, drop (run_length (NOT_LITERAL 92) s) s = 92 :: r.
Proof.
  induction s as [|c s IH]; simpl; [by left|].
  destruct (c =? 92) eqn:Hc; simpl; [|done].
  apply N.eqb_eq in Hc as ->. right. by eexists.
Qed.

Lemma run_length_inside s j :
  (j < run_length (NOT_LITERAL 92) s)%nat ->
  ∃ c r, drop j s = c :: r ∧ c ≠ 92.
Proof.
  revert j. induction s as [|c s IH]; intros j; simpl; [lia|].
  destruct (c =? 92) eqn:Hc; simpl; [lia|].
  apply N.eqb_neq in Hc. destruct j as [|j]; simpl.
  - intros _. by exists c, s.
  - intros Hj. apply IH. lia.
Qed.

Lemma run_length_take s :
  Forall (λ c, c ≠ 92) (take (run_length (NOT_LITERAL 92) s) s).
Proof.
  induction s as [|c s IH]; simpl; [constructor|].
  destruct (c =? 92) eqn:Hc; simpl; [constructor|].
  apply N.eqb_neq in Hc. by constructor.
Qed.

Lemma run_length_segment seg r :
  Forall (λ c, c ≠ 92) seg ->
  run_length (NOT_LITERAL 92) (seg ++ 92 :: r) = length seg.
Proof.
  induction 1 as [|c seg Hc _ IH]; simpl; [done|].
  apply N.eqb_neq in Hc. rewrite Hc. simpl. by rewrite IH.
Qed.

Lemma backtrack_fail k lo n s :
  (∀ j, (j <= n)%nat -> k (drop j s) = None) -> backtrack k lo n s = None.
Proof.
  induction n as [|n IH]; intros H; simpl.
  - destruct (0 <? lo)%nat; [done|]. by rewrite (H 0%nat).
  - destruct (S n <? lo)%nat; [done|]. rewrite (H (S n)) by lia.
    apply IH. intros j Hj. apply H. lia.
Qed.

(** The end of the pattern, [[^\\]+\\]: the backtracking never finds
    anything the longest run does not. *)
Lemma match_here_segment s :
  match_here [MAX_REPEAT 1 (NOT_LITERAL 92); One (LITERAL 92)] s =
  match run_length (NOT_LITERAL 92) s with
  | O => None
  | S n =>
      match drop (S n) s with
      | [] => None
      | _ :: _ => Some (S (S n))
      end
  end.
Proof.
  cbn [match_here].
  pose proof (run_length_stop s) as Hstop.
  pose proof (run_length_inside s) as Hin.
  destruct (run_length (NOT_LITERAL 92) s) as [|n]; [done|].
  cbn [backtrack]. change (S n <? 1)%nat with false. cbv iota.
  destruct Hstop as [->|[r ->]].
  - apply backtrack_fail. intros j Hj.
    destruct (Hin j) as (c & r & -> & Hc); [lia|].
    apply N.eqb_neq in Hc. simpl. by rewrite Hc.
  - simpl. do 2 f_equal. lia.
Qed.

Lemma match_home_occurrence m rest :
  occurrence m -> match_here home_pattern (m ++ rest) = Some (length m).
Proof.
  intros (seg & Hne & Hseg & ->).
  rewrite home_pattern_split, match_here_literals, <- !app_assoc.
  rewrite starts_with_app, drop_app_length, match_here_segment.
  change ([92] ++ rest) with (92 :: rest).
  rewrite (run_length_segment seg rest Hseg).
  destruct seg as [|c seg]; [done|]. cbn [length].
  change (S (length seg)) with (length (c :: seg)).
  rewrite drop_app_length. simpl. rewrite !length_app. simpl.
  do 2 f_equal. lia.
Qed.

Lemma match_home_some s n :
  match_here home_pattern s = Some n ->
  ∃ m, occurrence m ∧ s = m ++ drop n s ∧ n = length m.
Proof.
  rewrite home_pattern_split, match_here_literals.
  destruct (starts_with home_prefix s) eqn:Hp; [|done].
  apply starts_with_split in Hp. revert Hp.
  generalize (drop (length home_prefix) s). intros s1 -> .
  rewrite match_here_segment.
  pose proof (run_length_stop s1) as Hstop.
  pose proof (run_length_take s1) as Htake.
  destruct (run_length (NOT_LITERAL 92) s1) as [|k] eqn:Hk; [done|].
  destruct Hstop as [Hd|[r Hd]]; rewrite Hd; [done|].
  intros [= <-].
  exists (home_prefix ++ take (S k) s1 ++ [92]). split; [|split].
  - exists (take (S k) s1). split; [|done].
    destruct s1; [by simpl in Hk|done].
  - rewrite <- !app_assoc. f_equal.
    change (drop _ (home_prefix ++ s1)) with (drop (S (S k)) s1).
    assert (drop (S (S k)) s1 = r) as ->.
    { replace (S (S k)) with (S k + 1)%nat by lia. by rewrite <- drop_drop, Hd. }
    rewrite <- (take_drop (S k) s1) at 1. by rewrite Hd.
  - rewrite !length_app, length_take.
    change (length home_prefix) with 9%nat. change (length [92]) with 1%nat.
    assert (S k <= length s1)%nat; [|lia].
    destruct (decide (S k <= length s1)%nat); [done|].
    rewrite drop_ge in Hd by lia. done.
Qed.

(** ** The substitution of the pattern *)

Local Abbreviation home_sub := (re_sub home_pattern (py "/USER_HOME/")).

Lemma occurrence_length m : occurrence m -> (11 <= length m)%nat.
Proof.
  intros ([|c seg] & Hne & _ & ->); [done|].
  rewrite !length_app. change (length home_prefix) with 9%nat. simpl. lia.
Qed.

Lemma occurrence_head m : occurrence m -> ∃ m', m = 67 :: m'.
Proof. intros (seg & _ & _ & ->). by eexists. Qed.

Lemma match_home_none s :
  match_here home_pattern s = None <-> no_occurrence_at_head s.
Proof.
  split.
  - intros Hn (m & rest & Hm & ->).
    by rewrite (match_home_occurrence m rest Hm) in Hn.
  - intros Hno. destruct (match_here home_pattern s) as [n|] eqn:Hs; [|done].
    destruct (match_home_some s n Hs) as (m & Hm & Heq & _).
    destruct Hno. by exists m, (drop n s).
Qed.

Lemma match_home_head c s n :
  match_here home_pattern (c :: s) = Some n -> c = 67.
Proof.
  intros H. destruct (match_home_some _ _ H) as (m & Hm & Heq & _).
  destruct (occurrence_head m Hm) as [m' ->]. by injection Heq.
Qed.

(** The substitution, one position at a time. *)
Lemma home_sub_cons c s :
  home_sub (c :: s) =
  match match_here home_pattern (c :: s) with
  | Some n => py "/USER_HOME/" ++ home_sub (drop n (c :: s))
  | None => c :: home_sub s
  end.
Proof.
  unfold re_sub. rewrite scan_cons.
  destruct (match_here home_pattern (c :: s)) as [[|k]|] eqn:Hm; [|done..].
  destruct (match_home_some _ _ Hm) as (m & Hocc & _ & Hlen).
  apply occurrence_length in Hocc. lia.
Qed.

Lemma home_sub_other c s : c ≠ 67 -> home_sub (c :: s) = c :: home_sub s.
Proof.
  intros Hc. rewrite home_sub_cons.
  destruct (match_here home_pattern (c :: s)) eqn:Hm; [|done].
  by apply match_home_head in Hm.
Qed.

Lemma home_sub_occurrence m rest :
  occurrence m -> home_sub (m ++ rest) = py "/USER_HOME/" ++ home_sub rest.
Proof.
  intros Hm. destruct (occurrence_head m Hm) as [m' ->].
  change ((67 :: m') ++ rest) with (67 :: (m' ++ rest)).
  rewrite home_sub_cons.
  change (67 :: (m' ++ rest)) with ((67 :: m') ++ rest).
  by rewrite (match_home_occurrence _ rest Hm), drop_app_length.
Qed.

Lemma home_sub_redacted s : redacted s (home_sub s).
Proof.
  remember (length s) as n eqn:Hn. revert s Hn.
  induction n as [n IH] using lt_wf_ind. intros [|c s] Hn; [constructor|].
  destruct (match_here home_pattern (c :: s)) as [k|] eqn:Hm.
  - destruct (match_home_some _ _ Hm) as (m & Hocc & Heq & Hlen).
    rewrite Heq, (home_sub_occurrence m _ Hocc).
    apply redacted_occurrence; [done|].
    apply (IH (length (drop k (c :: s)))); [|done].
    pose proof (occurrence_length m Hocc).
    rewrite length_drop. simpl in *. lia.
  - rewrite home_sub_cons, Hm.
    apply redacted_other; [by apply match_home_none|].
    apply (IH (length s)); [simpl in Hn; lia|done].
Qed.

(** The specification's relation determines the result. *)
Lemma redacted_functional s out : redacted s out -> out = home_sub s.
Proof.
  induction 1 as [|m rest out Hm _ IH|c s out Hno _ IH].
  - done.
  - by rewrite (home_sub_occurrence m rest Hm), IH.
  - apply match_home_none in Hno. by rewrite home_sub_cons, Hno, IH.
Qed.

Lemma redact_home_sub s : redact s = home_sub s.
Proof. unfold redact. by rewrite str_replace_self. Qed.

Lemma home_prefix_eq : home_prefix = [67; 58; 92; 85; 115; 101; 114; 115; 92].
Proof. reflexivity. Qed.

(** Text without a backslash holds no occurrence. *)
Lemma home_sub_no_backslash s : Forall (λ c, c ≠ 92) s -> home_sub s = s.
Proof.
  induction 1 as [|c s Hc Hs IH]; [done|].
  rewrite home_sub_cons.
  destruct (match_here home_pattern (c :: s)) as [n|] eqn:Hm; [|by rewrite IH].
  destruct (match_home_some _ _ Hm) as (m & (seg & _ & _ & ->) & Heq & _).
  assert (92 ∈ c :: s) as Hin.
  { rewrite Heq. set_solver. }
  assert (Forall (λ c, c ≠ 92) (c :: s)) as Hall by by constructor.
  rewrite Forall_forall in Hall. by destruct (Hall 92 Hin).
Qed.

(** A character of the result that is not the slash of [/USER_HOME/] was
    copied from the input. *)
Lemma home_sub_copied t a o :
  home_sub t = a :: o -> a ≠ 47 ->
  ∃ t', t = a :: t' ∧ home_sub t' = o ∧ match_here home_pattern t = None.
Proof.
  destruct t as [|c t]; [done|]. rewrite home_sub_cons.
  destruct (match_here home_pattern (c :: t)) as [n|] eqn:Hm.
  - intros [= <- _]. done.
  - intros [= <- <-] _. by exists t.
Qed.

(** Rewriting behind an unmatched position does not make it match. *)
Lemma match_home_stable c s :
  match_here home_pattern (c :: s) = None ->
  match_here home_pattern (c :: home_sub s) = None.
Proof.
  intros Hnone.
  destruct (match_here home_pattern (c :: home_sub s)) as [n|] eqn:Hm; [|done].
  exfalso.
  destruct (match_home_some _ _ Hm) as (m & (seg & Hne & Hseg & ->) & Heq & _).
  clear Hm. revert Heq. generalize (drop n (c :: home_sub s)). intros rest Heq.
  rewrite home_prefix_eq in Heq. simpl in Heq. injection Heq as -> Heq.
  do 8 (apply home_sub_copied in Heq as (s1 & -> & Heq & _); [|done];
        revert Hnone Heq; generalize s1; clear s1; intros s Hnone Heq).
  destruct seg as [|a seg]; [done|]. inversion Hseg as [|? ? Ha Hseg']; subst.
  simpl in Heq. rename s into s1.
  revert Hnone.
  change (67 :: 58 :: 92 :: 85 :: 115 :: 101 :: 114 :: 115 :: 92 :: s1)
    with (home_prefix ++ s1).
  rewrite home_pattern_split, match_here_literals, starts_with_app, drop_app_length.
  rewrite match_here_segment.
  pose proof (run_length_stop s1) as Hstop.
  pose proof (run_length_take s1) as Htake.
  destruct (run_length (NOT_LITERAL 92) s1) as [|k] eqn:Hk.
  - intros _. destruct s1 as [|d s1]; [done|].
    simpl in Hk. destruct (d =? 92) eqn:Hd; [|done].
    apply N.eqb_eq in Hd as ->. rewrite home_sub_other in Heq by done.
    injection Heq as <- _. done.
  - destruct Hstop as [Hd|[r Hd]]; rewrite Hd; [|done]. intros _.
    rewrite <- (take_drop (S k) s1), Hd, app_nil_r in Heq.
    rewrite (home_sub_no_backslash _ Htake) in Heq.
    assert (92 ∈ take (S k) s1) as Hin.
    { rewrite Heq. set_solver. }
    rewrite Forall_forall in Htake. by destruct (Htake 92 Hin).
Qed.

Lemma home_sub_replacement t :
  home_sub (py "/USER_HOME/" ++ t) = py "/USER_HOME/" ++ home_sub t.
Proof.
  change (py "/USER_HOME/") with [47; 85; 83; 69; 82; 95; 72; 79; 77; 69; 47].
  simpl app. by rewrite !home_sub_other by done.
Qed.

Lemma home_sub_idempotent s : home_sub (home_sub s) = home_sub s.
Proof.
  remember (length s) as n eqn:Hn. revert s Hn.
  induction n as [n IH] using lt_wf_ind. intros [|c s] Hn; [done|].
  rewrite home_sub_cons.
  destruct (match_here home_pattern (c :: s)) as [k|] eqn:Hm.
  - destruct (match_home_some _ _ Hm) as (m & Hocc & _ & Hlen).
    apply occurrence_length in Hocc.
    rewrite home_sub_replacement. f_equal.
    apply (IH (length (drop k (c :: s)))); [|done].
    rewrite length_drop. simpl in *. lia.
  - rewrite home_sub_cons, (match_home_stable c s Hm). f_equal.
    apply (IH (length s)); [simpl in Hn; lia|done].
Qed.

(** ** The classification *)

Lemma textchars_allowed b :
  existsb (Byte.eqb b) textchars = true <-> allowed b.
Proof.
  assert (existsb (Byte.eqb b) textchars =
          let n := Byte.to_N b in
          existsb (N.eqb n) [7; 8; 9; 10; 12; 13; 27]
          || ((0x20 <=? n) && (n <=? 0xFF) && negb (n =? 0x7F))) as ->
    by (destruct b; vm_compute; reflexivity).
  unfold allowed. cbv zeta. generalize (Byte.to_N b). intros n.
  rewrite orb_true_iff, !andb_true_iff, negb_true_iff, existsb_exists.
  rewrite !N.leb_le, N.eqb_neq.
  split; (intros [H|H]; [left|right; lia]).
  - destruct H as (x & Hx & Heq). apply N.eqb_eq in Heq as ->.
    by apply list_elem_of_In.
  - exists n. split; [by apply list_elem_of_In|apply N.eqb_refl].
Qed.

Lemma is_binary_string_spec data :
  is_binary_string data = true <-> ∃ b, b ∈ data ∧ ¬ allowed b.
Proof.
  unfold is_binary_string, translate_delete.
  destruct (List.filter _ data) as [|x l] eqn:Hf.
  - split; [done|]. intros (b & Hb & Hna).
    assert (In b []) as []. rewrite <- Hf. apply filter_In.
    split; [by apply list_elem_of_In|]. apply negb_true_iff.
    destruct (existsb (Byte.eqb b) textchars) eqn:Hex; [|done].
    by apply textchars_allowed in Hex.
  - split; [|done]. intros _. exists x.
    assert (In x (x :: l)) as Hx by by left.
    rewrite <- Hf in Hx. apply filter_In in Hx as [Hx Hna].
    split; [by apply list_elem_of_In|].
    rewrite <- textchars_allowed. apply negb_true_iff in Hna. by rewrite Hna.
Qed.

Lemma starts_with_spec p s : starts_with p s = true <-> ∃ post, s = p ++ post.
Proof.
  split.
  - intros H. eexists. by apply starts_with_split.
  - intros [post ->]. apply starts_with_app.
Qed.

Lemma tails_spec t s : t ∈ tails s <-> ∃ pre, s = pre ++ t.
Proof.
  induction s as [|c s IH]; simpl.
  - rewrite list_elem_of_singleton. split.
    + intros ->. by exists [].
    + intros [pre H]. symmetry in H. by apply app_eq_nil in H as [_ ->].
  - rewrite elem_of_cons, IH. split.
    + intros [->|[pre ->]]; [by exists []|by exists (c :: pre)].
    + intros [[|c' pre] H]; simpl in H.
      * by left.
      * injection H as <- ->. right. by exists pre.
Qed.

Lemma contains_spec sub s : contains sub s = true <-> substring sub s.
Proof.
  unfold contains, substring. rewrite existsb_exists. split.
  - intros (t & Ht & Hp). apply list_elem_of_In, tails_spec in Ht as [pre ->].
    apply starts_with_spec in Hp as [post ->]. by exists pre, post.
  - intros (pre & post & ->). exists (sub ++ post). split.
    + apply list_elem_of_In, tails_spec. by exists pre.
    + apply starts_with_app.
Qed.

(** The test of [replace_pii] on the path alone. *)
Lemma excluded_spec path :
  contains (py "vendor/") path
  || contains (py "node_modules/") path
  || contains (py ".git/") path
  || contains (py ".history/") path
  || contains (py "dist/") path = true <-> excluded path.
Proof.
  rewrite !orb_true_iff, !contains_spec. unfold excluded, exclusions. split.
  - intros [[[[H|H]|H]|H]|H]; eexists; (split; [|exact H]); set_solver.
  - intros (d & Hd & H). rewrite !elem_of_cons, elem_of_nil in Hd.
    destruct Hd as [->|[->|[->|[->|[->|[]]]]]]; auto 10.
Qed.

(** ** Running the program *)

Lemma is_binary_run path w :
  is_binary path w =
  (Returned match fs_read (w_fs w) path with
            | inr data => is_binary_string (take 1024 data)
            | inl _ => true
            end,
   add_event (Open path RB) w).
Proof.
  unfold is_binary, try_except, open_read, mbind, M_bind, log, sys_read. simpl.
  by destruct (fs_read (w_fs w) path).
Qed.

(** The skipped files: only the probe has touched them. *)
Lemma replace_pii_try_skip os path w :
  fst (is_binary path w) = Returned true ∨ excluded path ->
  replace_pii_try os path w = (Returned tt, add_event (Open path RB) w).
Proof.
  intros H. unfold replace_pii_try, mbind, M_bind.
  rewrite is_binary_run in *. simpl in H.
  rewrite <- !orb_assoc.
  destruct H as [[= ->]|H]; [done|].
  apply excluded_spec in H. rewrite <- !orb_assoc in H. rewrite H.
  by rewrite orb_true_r.
Qed.

(** The files that are processed. *)
Lemma replace_pii_try_eligible os path w f :
  w_fs w !! path = Some (Regular f) ->
  eligible w path ->
  replace_pii_try os path w =
  let w2 := add_event (Open path R) (add_event (Open path RB) w) in
  match utf8_decode (f_data f) with
  | None => (Raised UnicodeDecodeError, w2)
  | Some s =>
      let w3 := add_event (Open path W) w2 in
      let content := redact (universal_newlines s) in
      if f_writable f then
        match utf8_encode (write_newlines (linesep os) content) with
        | Some b =>
            (Returned tt,
             set_fs (<[path := Regular (mkfile b (f_readable f) true)]> (w_fs w)) w3)
        | None =>
            (Raised UnicodeEncodeError,
             set_fs (<[path := Regular (mkfile [] (f_readable f) true)]> (w_fs w)) w3)
        end
      else (Raised PermissionError, w3)
  end.
Proof.
  intros Hf [Hbin Hex]. unfold replace_pii_try, mbind, M_bind.
  rewrite is_binary_run in *. simpl in Hbin. injection Hbin as Hbin. rewrite Hbin.
  rewrite <- excluded_spec in Hex. apply not_true_is_false in Hex.
  rewrite orb_false_l. rewrite Hex.
  unfold fs_read in Hbin. rewrite Hf in Hbin.
  destruct (f_readable f) eqn:Hr; [|done].
  unfold read_text, open_read, mbind, M_bind, log, sys_read, fs_read. simpl.
  rewrite Hf, Hr.
  destruct (utf8_decode (f_data f)) as [s|]; [|done].
  unfold mret, M_ret, write_text, open_write, mbind, M_bind, log, sys_create, fs_create.
  simpl. rewrite Hf.
  destruct (f_writable f); [|done].
  destruct (utf8_encode _) as [b|]; [|by rewrite Hr].
  unfold write_bytes, fs_write, set_fs. simpl.
  by rewrite lookup_insert_eq, insert_insert_eq, Hr.
Qed.

Lemma replace_pii_run os path w :
  replace_pii os path w =
  match replace_pii_try os path w with
  | (Returned _, w') => (Returned tt, w')
  | (Raised e, w') => (Returned tt, add_event (PrintError path e) w')
  end.
Proof.
  unfold replace_pii, try_except.
  by destruct (replace_pii_try os path w) as [[[]|e] w'].
Qed.

(** Which files are skipped is decided by the probe and the path. *)
Lemma skip_or_eligible path w :
  (fst (is_binary path w) = Returned true ∨ excluded path)
  ∨ (eligible w path ∧ ∃ f, w_fs w !! path = Some (Regular f) ∧ f_readable f = true).
Proof.
  unfold eligible. rewrite is_binary_run. simpl.
  destruct (contains (py "vendor/") path
            || contains (py "node_modules/") path
            || contains (py ".git/") path
            || contains (py ".history/") path
            || contains (py "dist/") path) eqn:Hex.
  { left. right. by apply excluded_spec. }
  assert (¬ excluded path) as Hne.
  { rewrite <- excluded_spec. by rewrite Hex. }
  unfold fs_read.
  destruct (w_fs w !! path) as [[f|]|]; [|by left; left..].
  destruct (f_readable f) eqn:Hr; [|by left; left].
  destruct (is_binary_string (take 1024 (f_data f))); [by left; left|].
  right. split; [done|]. by exists f.
Qed.

(** What processing one path does to the world: it returns, it logs the
    probe and then no command, it stages nothing, and it changes at most
    the regular file at the path. *)
Lemma replace_pii_effect os path w :
  ∃ evs fs',
    replace_pii os path w =
    (Returned tt,
     mkworld fs' (w_ls_files w) (w_git_add w) (w_staged w) (w_trace w ++ Open path RB :: evs))
    ∧ Forall (λ e, ¬ is_system e) evs
    ∧ (fs' = w_fs w
       ∨ ∃ f f', w_fs w !! path = Some (Regular f)
                 ∧ fs' = <[path := Regular f']> (w_fs w)).
Proof.
  assert (∀ e, is_system e -> ∀ p m, e ≠ Open p m) as Ho
    by (intros e [c ->] p m; done).
  assert (∀ e, is_system e -> ∀ p x, e ≠ PrintError p x) as Hp
    by (intros e [c ->] p x; done).
  rewrite replace_pii_run.
  destruct (skip_or_eligible path w) as [Hskip|[Hel (f & Hf & Hr)]].
  - rewrite (replace_pii_try_skip os path w Hskip).
    exists [], (w_fs w). split; [done|]. split; [constructor|by left].
  - rewrite (replace_pii_try_eligible os path w f Hf Hel). cbv zeta.
    destruct (utf8_decode (f_data f)) as [s|].
    2:{ exists [Open path R; PrintError path UnicodeDecodeError], (w_fs w).
        split; [|split; [|by left]].
        - unfold add_event. simpl. by rewrite <- !app_assoc.
        - repeat constructor; intros H; [eapply Ho|eapply Hp]; done. }
    destruct (f_writable f).
    2:{ exists [Open path R; Open path W; PrintError path PermissionError], (w_fs w).
        split; [|split; [|by left]].
        - unfold add_event. simpl. by rewrite <- !app_assoc.
        - repeat constructor; intros H; first [by eapply Ho|by eapply Hp]. }
    destruct (utf8_encode _) as [b|].
    + exists [Open path R; Open path W]. eexists. split; [|split].
      * unfold add_event, set_fs. simpl. by rewrite <- !app_assoc.
      * repeat constructor; intros H; first [by eapply Ho|by eapply Hp].
      * right. by exists f; eexists.
    + exists [Open path R; Open path W; PrintError path UnicodeEncodeError]. eexists.
      split; [|split].
      * unfold add_event, set_fs. simpl. by rewrite <- !app_assoc.
      * repeat constructor; intros H; first [by eapply Ho|by eapply Hp].
      * right. by exists f; eexists.
Qed.

Lemma read_text_run decode path w :
  read_text decode path w =
  let w' := add_event (Open path R) w in
  match fs_read (w_fs w) path with
  | inl e => (Raised e, w')
  | inr data =>
      match decode data with
      | Some s => (Returned (universal_newlines s), w')
      | None => (Raised UnicodeDecodeError, w')
      end
  end.
Proof.
  unfold read_text, open_read, mbind, M_bind, log, sys_read. simpl.
  destruct (fs_read (w_fs w) path) as [e|data]; [done|].
  by destruct (decode data).
Qed.

Lemma os_system_ls w :
  os_system ls_command w =
  let w' := add_event (System ls_command) w in
  match fs_create (w_fs w) tracked_files with
  | inr fs => (Returned 0, set_fs (fs_write fs tracked_files (w_ls_files w)) w')
  | inl _ => (Returned 512, w')
  end.
Proof.
  unfold os_system. rewrite decide_True by done.
  unfold try_except, mbind, M_bind, log, sys_create. simpl.
  change (py "tracked_files.txt") with tracked_files.
  destruct (fs_create (w_fs w) tracked_files); reflexivity.
Qed.

Lemma os_system_add w :
  os_system add_command w =
  let w' := add_event (System add_command) w in
  match w_git_add w (w_fs w) with
  | Some st => (Returned 0, set_staged st w')
  | None => (Returned 32768, w')
  end.
Proof.
  unfold os_system. rewrite decide_False by done. rewrite decide_True by done.
  unfold mbind, M_bind, log, git_add_all. simpl. by destruct (w_git_add w (w_fs w)).
Qed.

Lemma process_lines_cons os line lines w :
  process_lines os (line :: lines) w =
  process_lines os lines (snd (replace_pii os (strip line) w)).
Proof.
  unfold process_lines. simpl. unfold mbind, M_bind.
  destruct (replace_pii_effect os (strip line) w) as (evs & fs' & -> & _). done.
Qed.

(** What the loop does to the world: it returns whatever happens to the
    files, it probes every path, it runs no command and stages nothing, and
    it removes no entry of the working tree. *)
Lemma process_lines_effect os lines w :
  ∃ evs fs',
    process_lines os lines w =
    (Returned tt, mkworld fs' (w_ls_files w) (w_git_add w) (w_staged w) (w_trace w ++ evs))
    ∧ Forall (λ e, ¬ is_system e) evs
    ∧ Forall (λ line, Open (strip line) RB ∈ evs) lines
    ∧ (∀ p f, w_fs w !! p = Some (Regular f) -> ∃ f', fs' !! p = Some (Regular f'))
    ∧ (∀ p, w_fs w !! p = Some Directory -> fs' !! p = Some Directory).
Proof.
  revert w. induction lines as [|line lines IH]; intros w.
  - exists [], (w_fs w). rewrite app_nil_r. destruct w. repeat split; eauto.
  - rewrite process_lines_cons.
    destruct (replace_pii_effect os (strip line) w) as (evs1 & fs1 & -> & Hev1 & Hfs1).
    cbn [snd].
    destruct (IH (mkworld fs1 (w_ls_files w) (w_git_add w) (w_staged w)
                    (w_trace w ++ Open (strip line) RB :: evs1)))
      as (evs2 & fs2 & -> & Hev2 & Hop2 & Hreg2 & Hdir2).
    cbn [w_fs w_ls_files w_git_add w_staged w_trace] in *.
    exists ((Open (strip line) RB :: evs1) ++ evs2), fs2.
    split; [by rewrite <- app_assoc|]. split; [|split; [|split]].
    + apply Forall_app. split; [|done]. constructor; [|done]. by intros [c Hc].
    + constructor; [apply list_elem_of_here|].
      eapply Forall_impl; [exact Hop2|]. simpl. intros l Hl.
      apply elem_of_cons. right. apply elem_of_app. by right.
    + intros p f Hp. destruct Hfs1 as [->|(f1 & f1' & Hf1 & ->)]; [by eapply Hreg2|].
      destruct (decide (p = strip line)) as [->|Hne].
      * eapply Hreg2. apply lookup_insert_eq.
      * eapply Hreg2. by rewrite lookup_insert_ne.
    + intros p Hp. destruct Hfs1 as [->|(f1 & f1' & Hf1 & ->)]; [by eapply Hdir2|].
      apply Hdir2. rewrite lookup_insert_ne; [done|]. intros <-. congruence.
Qed.

(** The run of [main]: the listing command, the [open], the loop over the
    lines that the iteration yields, and then either the error of the
    iteration or the staging. *)
Lemma main_run os w :
  main os w =
  let w2 := add_event (Open tracked_files R) (snd (os_system ls_command w)) in
  match fs_read (w_fs w2) tracked_files with
  | inl e => (Raised e, w2)
  | inr data =>
      let w3 := snd (process_lines os (listing_lines os data).1 w2) in
      if (listing_lines os data).2 then (Raised UnicodeDecodeError, w3)
      else (Returned tt, snd (os_system add_command w3))
  end.
Proof.
  unfold main. unfold mbind at 1. unfold M_bind at 1.
  change "git ls-files > tracked_files.txt"%string with ls_command.
  change (py "tracked_files.txt") with tracked_files.
  destruct (os_system ls_command w) as [[n|e] w1] eqn:Hls.
  2:{ rewrite os_system_ls in Hls. cbv zeta in Hls. by destruct (fs_create _ _). }
  cbn [snd]. cbv zeta.
  unfold mbind at 1. unfold M_bind at 1.
  unfold open_read, mbind at 1. unfold M_bind at 1. unfold log, sys_read.
  cbn [w_fs add_event].
  destruct (fs_read (w_fs w1) tracked_files) as [e|data]; [done|].
  unfold mbind at 1. unfold M_bind at 1.
  unfold for_each_line. fold (listing_lines os data).
  destruct (listing_lines os data) as [lines failed]. cbn [fst snd].
  unfold mbind at 1. unfold M_bind at 1.
  change (for_each lines _) with (process_lines os lines).
  destruct (process_lines_effect os lines (add_event (Open tracked_files R) w1))
    as (evs & fs' & -> & _).
  cbn [snd]. destruct failed; [done|].
  unfold mret at 1. unfold M_ret at 1. unfold mbind, M_bind.
  change "git add ."%string with add_command.
  by destruct (os_system add_command _) as [[n'|e'] w4] eqn:Hadd;
    [|rewrite os_system_add in Hadd; cbv zeta in Hadd; destruct (w_git_add _ _)].
Qed.

(** ** The codec *)

Lemma byte_of_to_N b : byte_of (Byte.to_N b) = b.
Proof. unfold byte_of. by rewrite Byte.of_to_N. Qed.

Lemma div_mul_add q d r : r < d -> (q * d + r) / d = q.
Proof.
  intros Hr. symmetry. apply (N.div_unique _ _ _ r); [done|lia].
Qed.

Lemma mod_mul_add q d r : r < d -> (q * d + r) mod d = r.
Proof.
  intros Hr. symmetry. apply (N.mod_unique _ _ q); [done|lia].
Qed.

(** One step of the decoder: the bytes it consumes are the UTF-8 form of
    the code point it yields. *)
Lemma utf8_decode_cons b0 r0 s :
  utf8_decode (b0 :: r0) = Some s ->
  ∃ c enc rest s',
    b0 :: r0 = enc ++ rest ∧ (0 < length enc)%nat ∧ utf8_char c = Some enc
    ∧ utf8_decode rest = Some s' ∧ s = c :: s'.
Proof.
  cbn [utf8_decode]. cbv zeta.
  pose proof (Byte.to_N_bounded b0) as Hb0.
  destruct (Byte.to_N b0 <? 0x80) eqn:H1.
  { destruct (utf8_decode r0) as [s'|] eqn:Hr; [|done]. intros [= <-].
    exists (Byte.to_N b0), [b0], r0, s'. split; [done|]. split; [simpl; lia|]. split; [|done].
    unfold utf8_char. rewrite H1. by rewrite byte_of_to_N. }
  apply N.ltb_ge in H1.
  destruct ((0xC0 <=? Byte.to_N b0) && (Byte.to_N b0 <? 0xE0)) eqn:H2.
  { apply andb_true_iff in H2 as [H2a H2b].
    apply N.leb_le in H2a. apply N.ltb_lt in H2b.
    destruct r0 as [|b1 r1]; [done|].
    destruct (cont (Byte.to_N b1) && _) eqn:Hc; [|done].
    apply andb_true_iff in Hc as [Hc1 Hlo]. apply N.leb_le in Hlo.
    apply andb_true_iff in Hc1 as [Hc1a Hc1b].
    apply N.leb_le in Hc1a, Hc1b.
    destruct (utf8_decode r1) as [s'|] eqn:Hr; [|done]. intros [= <-].
    set (x := Byte.to_N b0 - 0xC0) in *. set (y := Byte.to_N b1 - 0x80) in *.
    assert (x < 32 ∧ y < 64) as [Hx Hy] by (unfold x, y; lia).
    exists (x * 64 + y), [b0; b1], r1, s'. split; [done|]. split; [simpl; lia|]. split; [|done].
    unfold utf8_char.
    replace (x * 64 + y <? 0x80) with false by (symmetry; apply N.ltb_ge; lia).
    replace (x * 64 + y <? 0x800) with true by (symmetry; apply N.ltb_lt; lia).
    rewrite div_mul_add, mod_mul_add by done.
    replace (0xC0 + x) with (Byte.to_N b0) by (unfold x; lia).
    replace (0x80 + y) with (Byte.to_N b1) by (unfold y; lia).
    by rewrite !byte_of_to_N. }
  destruct ((0xE0 <=? Byte.to_N b0) && (Byte.to_N b0 <? 0xF0)) eqn:H3.
  { apply andb_true_iff in H3 as [H3a H3b].
    apply N.leb_le in H3a. apply N.ltb_lt in H3b.
    destruct r0 as [|b1 [|b2 r2]]; [done..|].
    destruct (cont (Byte.to_N b1) && _ && _ && _) eqn:Hc; [|done].
    apply andb_true_iff in Hc as [Hc Hsur]. apply negb_true_iff in Hsur.
    apply andb_true_iff in Hc as [Hc Hlo]. apply N.leb_le in Hlo.
    apply andb_true_iff in Hc as [Hc1 Hc2].
    apply andb_true_iff in Hc1 as [Hc1a Hc1b].
    apply andb_true_iff in Hc2 as [Hc2a Hc2b].
    apply N.leb_le in Hc1a, Hc1b, Hc2a, Hc2b.
    destruct (utf8_decode r2) as [s'|] eqn:Hr; [|done]. intros [= <-].
    set (x := Byte.to_N b0 - 0xE0) in *. set (y := Byte.to_N b1 - 0x80) in *.
    set (z := Byte.to_N b2 - 0x80) in *.
    assert (x < 16 ∧ y < 64 ∧ z < 64) as (Hx & Hy & Hz) by (unfold x, y, z; lia).
    exists (x * 4096 + y * 64 + z), [b0; b1; b2], r2, s'.
    split; [done|]. split; [simpl; lia|]. split; [|done].
    unfold utf8_char. rewrite Hsur.
    replace (_ <? 0x80) with false by (symmetry; apply N.ltb_ge; lia).
    replace (_ <? 0x800) with false by (symmetry; apply N.ltb_ge; lia).
    replace (_ <? 0x10000) with true by (symmetry; apply N.ltb_lt; lia).
    replace (x * 4096 + y * 64 + z) with (x * 4096 + (y * 64 + z)) at 1 by lia.
    replace (x * 4096 + y * 64 + z) with ((x * 64 + y) * 64 + z) by lia.
    rewrite (div_mul_add x 4096) by lia.
    rewrite (div_mul_add (x * 64 + y) 64), (mod_mul_add (x * 64 + y) 64) by done.
    rewrite (mod_mul_add x 64) by done.
    replace (0xE0 + x) with (Byte.to_N b0) by (unfold x; lia).
    replace (0x80 + y) with (Byte.to_N b1) by (unfold y; lia).
    replace (0x80 + z) with (Byte.to_N b2) by (unfold z; lia).
    by rewrite !byte_of_to_N. }
  destruct ((0xF0 <=? Byte.to_N b0) && (Byte.to_N b0 <? 0xF8)) eqn:H4; [|done].
  apply andb_true_iff in H4 as [H4a H4b].
  apply N.leb_le in H4a. apply N.ltb_lt in H4b.
  destruct r0 as [|b1 [|b2 [|b3 r3]]]; [done..|].
  destruct (cont (Byte.to_N b1) && _ && _ && _ && _) eqn:Hc; [|done].
  apply andb_true_iff in Hc as [Hc Hhi]. apply N.leb_le in Hhi.
  apply andb_true_iff in Hc as [Hc Hlo]. apply N.leb_le in Hlo.
  apply andb_true_iff in Hc as [Hc Hc3].
  apply andb_true_iff in Hc as [Hc1 Hc2].
  apply andb_true_iff in Hc1 as [Hc1a Hc1b].
  apply andb_true_iff in Hc2 as [Hc2a Hc2b].
  apply andb_true_iff in Hc3 as [Hc3a Hc3b].
  apply N.leb_le in Hc1a, Hc1b, Hc2a, Hc2b, Hc3a, Hc3b.
  destruct (utf8_decode r3) as [s'|] eqn:Hr; [|done]. intros [= <-].
  set (x := Byte.to_N b0 - 0xF0) in *. set (y := Byte.to_N b1 - 0x80) in *.
  set (z := Byte.to_N b2 - 0x80) in *. set (t := Byte.to_N b3 - 0x80) in *.
  assert (x < 8 ∧ y < 64 ∧ z < 64 ∧ t < 64) as (Hx & Hy & Hz & Ht)
    by (unfold x, y, z, t; lia).
  exists (x * 262144 + y * 4096 + z * 64 + t), [b0; b1; b2; b3], r3, s'.
  split; [done|]. split; [simpl; lia|]. split; [|done].
  unfold utf8_char.
  replace (_ <? 0x80) with false by (symmetry; apply N.ltb_ge; lia).
  replace (_ <? 0x800) with false by (symmetry; apply N.ltb_ge; lia).
  replace (_ <? 0x10000) with false by (symmetry; apply N.ltb_ge; lia).
  replace (_ <=? 0x10FFFF) with true by (symmetry; apply N.leb_le; lia).
  replace (x * 262144 + y * 4096 + z * 64 + t)
    with (x * 262144 + (y * 4096 + z * 64 + t)) at 1 by lia.
  replace (x * 262144 + y * 4096 + z * 64 + t)
    with ((x * 64 + y) * 4096 + (z * 64 + t)) at 1 by lia.
  replace (x * 262144 + y * 4096 + z * 64 + t)
    with (((x * 64 + y) * 64 + z) * 64 + t) by lia.
  rewrite (div_mul_add x 262144) by lia.
  rewrite (div_mul_add (x * 64 + y) 4096) by lia.
  rewrite (div_mul_add _ 64 t), (mod_mul_add _ 64 t) by done.
  rewrite (mod_mul_add x 64), (mod_mul_add (x * 64 + y) 64) by done.
  replace (0xF0 + x) with (Byte.to_N b0) by (unfold x; lia).
  replace (0x80 + y) with (Byte.to_N b1) by (unfold y; lia).
  replace (0x80 + z) with (Byte.to_N b2) by (unfold z; lia).
  replace (0x80 + t) with (Byte.to_N b3) by (unfold t; lia).
  by rewrite !byte_of_to_N.
Qed.

(** Decoding is strict: encoding the decoded text gives the bytes back. *)
Lemma utf8_roundtrip b s : utf8_decode b = Some s -> utf8_encode s = Some b.
Proof.
  remember (length b) as n eqn:Hn. revert b s Hn.
  induction n as [n IH] using lt_wf_ind. intros [|b0 r0] s Hn Hd.
  - by injection Hd as <-.
  - apply utf8_decode_cons in Hd as (c & enc & rest & s' & Heq & Hlen & Hc & Hr & ->).
    simpl. rewrite Hc, Heq.
    rewrite (IH (length rest)) with (b := rest) (s := s'); [done| |done..].
    rewrite Hn, Heq, length_app. lia.
Qed.

Lemma utf8_encode_Some s :
  is_Some (utf8_encode s) <-> Forall (λ c, is_Some (utf8_char c)) s.
Proof.
  induction s as [|c s IH]; simpl.
  - split; [constructor|by eexists].
  - rewrite Forall_cons, <- IH.
    destruct (utf8_char c), (utf8_encode s); split; try done.
    + by intros [_ [? ?]].
    + by intros [[? ?] _].
    + by intros [[? ?] _].
Qed.

Lemma universal_newlines_Forall (P : N -> Prop) s :
  P 10 -> Forall P s -> Forall P (universal_newlines s).
Proof.
  intros H10. remember (length s) as n eqn:Hn. revert s Hn.
  induction n as [n IH] using lt_wf_ind. intros [|c s] Hn Hs; [done|].
  inversion Hs as [|? ? Hc Hs']; subst. simpl.
  destruct (c =? 13).
  - constructor; [done|]. destruct s as [|d s]; [done|].
    inversion Hs' as [|? ? Hd Hs'']; subst.
    destruct (d =? 10).
    + apply (IH (length s)); [simpl; lia|done..].
    + apply (IH (length (d :: s))); [simpl; lia|done..].
  - constructor; [done|]. apply (IH (length s)); [simpl; lia|done..].
Qed.

(** Text without a carriage return is read as it is. *)
Lemma universal_newlines_id s : 13 ∉ s -> universal_newlines s = s.
Proof.
  induction s as [|c s IH]; [done|]. intros Hs. simpl.
  destruct (c =? 13) eqn:Hc.
  - apply N.eqb_eq in Hc as ->. destruct Hs. by left.
  - f_equal. apply IH. intros H. apply Hs. by right.
Qed.

Lemma scan_Forall (P : N -> Prop) m repl k s :
  Forall P repl -> Forall P s -> Forall P (scan m repl k s).
Proof.
  intros Hrepl. revert k. induction s as [|c s IH]; intros k Hs; [done|].
  inversion Hs as [|? ? Hc Hs']; subst. simpl.
  destruct k as [|k]; [|by apply IH].
  destruct (m (c :: s)) as [[|j]|].
  - apply Forall_app. split; [done|]. constructor; [done|by apply IH].
  - apply Forall_app. split; [done|by apply IH].
  - constructor; [done|by apply IH].
Qed.

Lemma write_newlines_Forall (P : N -> Prop) os s :
  P 10 -> P 13 -> Forall P s -> Forall P (write_newlines (linesep os) s).
Proof.
  intros H10 H13 Hs. unfold write_newlines, linesep.
  destruct (name os); simpl; [done|].
  apply scan_Forall; [|done]. by repeat constructor.
Qed.

Lemma write_newlines_posix os s :
  name os = Posix -> write_newlines (linesep os) s = s.
Proof. unfold write_newlines, linesep. by intros ->. Qed.

(** Text without any occurrence of the patterns is not rewritten. *)
Lemma redact_no_pattern s : no_pattern s -> redact s = s.
Proof.
  intros [_ Hno]. rewrite redact_home_sub. unfold re_sub.
  apply scan_no_match. intros t Ht.
  destruct (match_here home_pattern t) as [n|] eqn:Hm; [|done].
  destruct Hno. apply tails_spec in Ht as [pre ->].
  destruct (match_home_some t n Hm) as (m & Hocc & Heq & _).
  exists m. split; [done|]. exists pre, (drop n t). by rewrite <- Heq.
Qed.

(** ** The incremental decoder *)









Lemma blocks_size n b :
  Forall (λ c, (0 < length c <= chunk_size)%nat) (blocks n b).
Proof.
  revert b. induction n as [|n IH]; intros [|x b]; try by constructor.
  cbn [blocks]. constructor; [|apply IH].
  rewrite length_take. assert (0 < chunk_size)%nat by (unfold chunk_size; lia).
  simpl length. lia.
Qed.

(** ** Newline translation and the patterns *)

(** A character of the text read that is not a line feed was read as it is. *)
Lemma universal_newlines_copied t a o :
  universal_newlines t = a :: o -> a ≠ 10 ->
  ∃ t', t = a :: t' ∧ universal_newlines t' = o.
Proof.
  destruct t as [|c t]; [done|]. simpl. destruct (c =? 13).
  - by intros [= <- _].
  - intros [= <- <-] _. by exists t.
Qed.

(** Every suffix of the text read is the reading of a suffix of the text. *)
Lemma universal_newlines_tails s t' :
  t' ∈ tails (universal_newlines s) ->
  ∃ t, t ∈ tails s ∧ t' = universal_newlines t.
Proof.
  remember (length s) as n eqn:Hn. revert s Hn.
  induction n as [n IH] using lt_wf_ind. intros [|c s] Hn.
  - simpl. intros ->%list_elem_of_singleton. exists []. split; [by left|done].
  - assert (∀ r, (length r <= length s)%nat -> (∀ x, x ∈ tails r -> x ∈ tails (c :: s)) ->
              t' ∈ tails (universal_newlines r) ->
              ∃ t, t ∈ tails (c :: s) ∧ t' = universal_newlines t) as Hrec.
    { intros r Hlen Hsub Ht.
      destruct (IH (length r)) with (s := r) as (t & Ht1 & Ht2);
        [simpl in Hn; lia|done|done|]. exists t. split; [by apply Hsub|done]. }
    intros Ht.
    assert (t' = universal_newlines (c :: s)
            ∨ t' ∈ tails (match universal_newlines (c :: s) with
                          | _ :: o => o | [] => [] end)) as [->|Ht'].
    { destruct (universal_newlines (c :: s)) eqn:Hu; simpl in Ht.
      - left. by apply list_elem_of_singleton in Ht.
      - apply elem_of_cons in Ht as [->|Ht]; [by left|by right]. }
    { exists (c :: s). split; [by left|done]. }
    revert Ht'. simpl. destruct (c =? 13).
    + destruct s as [|d s].
      * simpl. intros ->%list_elem_of_singleton. exists []. split; [|done].
        right. by left.
      * destruct (d =? 10).
        -- apply Hrec; [simpl; lia|]. intros x Hx. right. by right.
        -- apply Hrec; [simpl; lia|]. intros x Hx. by right.
    + apply Hrec; [simpl; lia|]. intros x Hx. by right.
Qed.

(** Behind the translation of a segment and its backslash there is a
    segment and its backslash. *)
Lemma universal_newlines_segment seg' rest' t :
  universal_newlines t = seg' ++ 92 :: rest' ->
  Forall (λ c, c ≠ 92) seg' ->
  ∃ seg rest, t = seg ++ 92 :: rest ∧ Forall (λ c, c ≠ 92) seg
              ∧ (seg' ≠ [] -> seg ≠ []).
Proof.
  revert t. induction seg' as [|a seg' IH]; intros t Ht Hseg.
  - apply universal_newlines_copied in Ht as (t' & -> & _); [|done].
    by exists [], t'.
  - inversion Hseg as [|? ? Ha Hseg']; subst.
    destruct t as [|c t]; [done|]. simpl in Ht.
    destruct (c =? 13) eqn:Hc.
    + apply N.eqb_eq in Hc as ->. injection Ht as <- Ht.
      destruct t as [|d t]; [by destruct seg'|].
      destruct (d =? 10) eqn:Hd.
      * apply N.eqb_eq in Hd as ->.
        destruct (IH t Ht Hseg') as (seg & rest & -> & Hs & _).
        exists (13 :: 10 :: seg), rest. split; [done|]. split; [|done].
        by repeat constructor.
      * destruct (IH (d :: t) Ht Hseg') as (seg & rest & -> & Hs & _).
        exists (13 :: seg), rest. split; [done|]. split; [|done].
        by constructor.
    + injection Ht as <- Ht.
      destruct (IH t Ht Hseg') as (seg & rest & -> & Hs & _).
      exists (c :: seg), rest. split; [done|]. split; [|done]. by constructor.
Qed.

Lemma no_pattern_universal_newlines s :
  no_pattern s -> no_pattern (universal_newlines s).
Proof.
  intros [Huser Hocc]. split.
  - intros (pre & post & Heq). apply Huser.
    assert (py "USER" ++ post ∈ tails (universal_newlines s)) as Ht
      by (apply tails_spec; by exists pre).
    apply universal_newlines_tails in Ht as (t & Ht & Hu).
    apply tails_spec in Ht as [pre0 ->]. symmetry in Hu.
    change (py "USER" ++ post) with (85 :: 83 :: 69 :: 82 :: post) in Hu.
    do 4 (apply universal_newlines_copied in Hu as (? & -> & Hu); [|done]).
    by exists pre0; eexists.
  - intros (m' & (seg' & Hne & Hseg & ->) & pre & post & Heq). apply Hocc.
    assert ((home_prefix ++ seg' ++ [92]) ++ post ∈ tails (universal_newlines s))
      as Ht by (apply tails_spec; by exists pre).
    apply universal_newlines_tails in Ht as (t & Ht & Hu).
    apply tails_spec in Ht as [pre0 ->]. symmetry in Hu.
    rewrite home_prefix_eq in Hu. simpl in Hu.
    do 9 (apply universal_newlines_copied in Hu as (? & -> & Hu); [|done]).
    rewrite <- app_assoc in Hu.
    apply universal_newlines_segment in Hu as (seg & rest & -> & Hs & Hn); [|done].
    exists (home_prefix ++ seg ++ [92]). split.
    + exists seg. split; [by apply Hn|done].
    + exists pre0, rest. rewrite home_prefix_eq. simpl. by rewrite <- !app_assoc.
Qed.

(** A check of [no_pattern] by computation. *)
Lemma no_pattern_check s :
  contains (py "USER") s = false ->
  forallb (λ t, bool_decide (match_here home_pattern t = None)) (tails s) = true ->
  no_pattern s.
Proof.
  intros Hu Hm. split.
  - rewrite <- contains_spec. by rewrite Hu.
  - intros (m & Hocc & pre & post & ->).
    rewrite forallb_forall in Hm.
    specialize (Hm (m ++ post)). rewrite bool_decide_eq_true in Hm.
    rewrite (match_home_occurrence m post Hocc) in Hm.
    assert (Some (length m) = None) by (apply Hm, list_elem_of_In, tails_spec; by exists pre).
    done.
Qed.

(** Text whose lines all end the Windows way. *)
Lemma write_newlines_crlf s :
  crlf_lines s = true ->
  str_replace [10] [13; 10] (universal_newlines s) = s.
Proof.
  unfold str_replace.
  remember (length s) as n eqn:Hn. revert s Hn.
  induction n as [n IH] using lt_wf_ind. intros [|c s] Hn; [done|].
  cbn [crlf_lines universal_newlines]. destruct (c =? 13) eqn:Hc.
  - apply N.eqb_eq in Hc as ->. destruct s as [|d s]; [done|].
    intros [Hd Hs]%andb_true_iff. rewrite Hd. apply N.eqb_eq in Hd as ->.
    rewrite scan_cons. change (literal_here [10] (10 :: _)) with (Some 1%nat).
    cbv iota. rewrite drop_0. simpl. do 2 f_equal.
    apply (IH (length s)); [simpl in Hn; lia|done..].
  - intros [Hd Hs]%andb_true_iff. apply negb_true_iff in Hd.
    rewrite scan_cons. unfold literal_here. cbn [starts_with].
    rewrite (N.eqb_sym 10 c), Hd. simpl. f_equal.
    apply (IH (length s)); [simpl in Hn; lia|done..].
Qed.

(** ** What is written back *)

Lemma redact_Forall (P : N -> Prop) s :
  Forall P (py "USER") -> Forall P (py "/USER_HOME/") ->
  Forall P s -> Forall P (redact s).
Proof.
  intros Hu Hh Hs. unfold redact, re_sub. apply scan_Forall; [done|].
  by apply (scan_Forall P (literal_here (py "USER")) (py "USER") 0).
Qed.

(** The text [replace_pii] writes can always be encoded: the file is never
    left empty by a failed encoding. *)
Lemma redacted_text_encodes os b text :
  utf8_decode b = Some text ->
  is_Some (utf8_encode (write_newlines (linesep os) (redact (universal_newlines text)))).
Proof.
  intros Hdec. apply utf8_encode_Some.
  apply write_newlines_Forall; [by eexists..|].
  apply redact_Forall; [by repeat constructor; eexists..|].
  apply universal_newlines_Forall; [by eexists|].
  apply utf8_encode_Some. rewrite (utf8_roundtrip _ _ Hdec). by eexists.
Qed.

(** What [replace_pii] does to an eligible file that decodes and can be
    written: it holds the redacted text afterwards. *)
Lemma replace_pii_writes_redacted os path w f text :
  w_fs w !! path = Some (Regular f) -> eligible w path ->
  utf8_decode (f_data f) = Some text -> f_writable f = true ->
  ∃ data',
    utf8_encode (write_newlines (linesep os) (redact (universal_newlines text)))
    = Some data'
    ∧ w_fs (snd (replace_pii os path w))
      = <[path := Regular (mkfile data' (f_readable f) true)]> (w_fs w).
Proof.
  intros Hf Hel Hdec Hw.
  destruct (redacted_text_encodes os _ _ Hdec) as [data' Hd']. exists data'.
  split; [done|].
  rewrite replace_pii_run, (replace_pii_try_eligible os path w f Hf Hel), Hdec.
  cbv zeta. by rewrite Hw, Hd'.
Qed.

(** The errors the body of [replace_pii] raises: the file is not UTF-8, or
    it cannot be opened for writing.  A file that cannot be opened for
    reading has stopped the probe before, and is skipped. *)
Lemma replace_pii_try_raises os path w e w1 :
  replace_pii_try os path w = (Raised e, w1) ->
  ∃ f, w_fs w !! path = Some (Regular f) ∧ f_readable f = true
       ∧ w_fs w1 = w_fs w
       ∧ ((e = UnicodeDecodeError ∧ utf8_decode (f_data f) = None)
          ∨ (e = PermissionError ∧ f_writable f = false)).
Proof.
  destruct (skip_or_eligible path w) as [Hskip|[Hel (f & Hf & Hr)]].
  { by rewrite (replace_pii_try_skip os path w Hskip). }
  rewrite (replace_pii_try_eligible os path w f Hf Hel). cbv zeta.
  intros H. exists f. split; [done|]. split; [done|].
  destruct (utf8_decode (f_data f)) as [s|] eqn:Hdec.
  - destruct (f_writable f).
    + destruct (redacted_text_encodes os _ _ Hdec) as [data' Hd'].
      by rewrite Hd' in H.
    + injection H as <- <-. split; [done|]. by right.
  - injection H as <- <-. split; [done|]. by left.
Qed.

(** ** The run of [main] *)




(** The listing command does not touch the index. *)
Lemma os_system_ls_git w :
  w_git_add (snd (os_system ls_command w)) = w_git_add w
  ∧ w_staged (snd (os_system ls_command w)) = w_staged w.
Proof. rewrite os_system_ls. cbv zeta. by destruct (fs_create _ _). Qed.



(** What the listing command does to the working tree. *)
Lemma os_system_ls_fs w :
  w_fs (snd (os_system ls_command w)) =
  match fs_create (w_fs w) tracked_files with
  | inr _ =>
      <[tracked_files :=
          Regular (mkfile (w_ls_files w)
                     (match w_fs w !! tracked_files with
                      | Some (Regular f) => f_readable f
                      | _ => true
                      end) true)]> (w_fs w)
  | inl _ => w_fs w
  end.
Proof.
  rewrite os_system_ls. cbv zeta. unfold fs_create, fs_write.
  destruct (w_fs w !! tracked_files) as [[f|]|] eqn:Hf; [|done|].
  - destruct (f_writable f); [|done]. simpl.
    by rewrite lookup_insert_eq, insert_insert_eq.
  - simpl. by rewrite lookup_insert_eq, insert_insert_eq.
Qed.

Lemma os_system_ls_keeps w p :
  is_Some (w_fs w !! p) -> is_Some (w_fs (snd (os_system ls_command w)) !! p).
Proof.
  rewrite os_system_ls_fs. destruct (fs_create _ _); [done|].
  intros Hp. destruct (decide (p = tracked_files)) as [->|Hne].
  - rewrite lookup_insert_eq. by eexists.
  - by rewrite lookup_insert_ne.
Qed.

(** The working tree at the end of [main], and what a run that returns
    has done last. *)
Lemma main_fs os w :
  ∃ lines w2,
    w_fs w2 = w_fs (snd (os_system ls_command w))
    ∧ w_fs (snd (main os w)) = w_fs (snd (process_lines os lines w2))
    ∧ (fst (main os w) = Returned tt ->
       (∃ f, w_fs w2 !! tracked_files = Some (Regular f))
       ∧ last (w_trace (snd (main os w))) = Some (System add_command)
       ∧ w_staged (snd (main os w))
         = match w_git_add w (w_fs (snd (main os w))) with
           | Some st => Some st
           | None => w_staged w
           end).
Proof.
  rewrite main_run. cbv zeta.
  set (w1 := snd (os_system ls_command w)).
  set (w2 := add_event (Open tracked_files R) w1).
  destruct (fs_read (w_fs w2) tracked_files) as [e|data] eqn:Hread.
  { exists [], w2. by repeat split. }
  exists (listing_lines os data).1, w2. split; [done|].
  destruct (process_lines_effect os (listing_lines os data).1 w2)
    as (evs & fs' & Hrun & _).
  destruct (listing_lines os data).2; [by repeat split|].
  rewrite Hrun. cbn [fst snd].
  rewrite os_system_add. cbv zeta. cbn [w_fs w_git_add].
  assert (w_git_add w2 = w_git_add w ∧ w_staged w2 = w_staged w) as [Hg Hs]
    by apply os_system_ls_git.
  rewrite Hg.
  split; [by destruct (w_git_add w fs')|]. intros _. split; [|split].
  - unfold fs_read in Hread.
    destruct (w_fs w2 !! tracked_files) as [[f|]|]; [by exists f|done..].
  - destruct (w_git_add w fs'); cbn [snd w_trace set_staged add_event];
      by rewrite last_snoc.
  - destruct (w_git_add w fs') as [st|] eqn:Hadd; cbn [snd w_staged w_fs set_staged add_event];
      by rewrite Hadd.
Qed.

(** ** The claims on the redaction *)

(** C1. [redact] replaces every occurrence of [C:\Users\<segment>\], found
    from left to right, by [/USER_HOME/] and leaves every other character
    as it is; the two scenarios of the specification. *)
Theorem redact_replaces_home_paths :
  (∀ s, redacted s (redact s))
  ∧ redact (py "Config at C:\Users\alice\settings.ini")
    = py "Config at /USER_HOME/settings.ini"
  ∧ redact (py "C:\Users\bob" ++ [92]) = py "/USER_HOME/".
Proof.
  split; [|split; reflexivity].
  intros s. rewrite redact_home_sub. apply home_sub_redacted.
Qed.

(** C9. Replacing ['USER'] by ['USER'] is the identity on every string, so
    [redact] is the regex substitution alone. *)
Theorem username_rule_is_identity :
  (∀ s, str_replace (py "USER") (py "USER") s = s)
  ∧ (∀ s, redact s = re_sub home_pattern (py "/USER_HOME/") s).
Proof.
  split; intros s; [apply str_replace_self|apply redact_home_sub].
Qed.

(** C3. Applying [redact] twice gives what applying it once gives. *)
Theorem redact_idempotent s : redact (redact s) = redact s.
Proof. rewrite !redact_home_sub. apply home_sub_idempotent. Qed.

(** ** The claims on the classification *)

(** C2. A readable file is reported binary exactly when one of its first
    1024 bytes is outside the allowed set. *)
Theorem is_binary_iff_disallowed_byte path w f :
  w_fs w !! path = Some (Regular f) -> f_readable f = true ->
  ∃ b, is_binary path w = (Returned b, add_event (Open path RB) w)
       ∧ (b = true <-> binary_content (f_data f)).
Proof.
  intros Hf Hr. rewrite is_binary_run. unfold fs_read. rewrite Hf, Hr.
  eexists. split; [done|]. apply is_binary_string_spec.
Qed.

Lemma is_binary_iff_disallowed_byte_witness :
  ∃ b, is_binary (py "logo.png") w_image
       = (Returned b, add_event (Open (py "logo.png") RB) w_image)
       ∧ (b = true <-> binary_content [x89; x50; x4e; x47; x00; x0d]).
Proof.
  apply (is_binary_iff_disallowed_byte (py "logo.png") w_image
           (mkfile [x89; x50; x4e; x47; x00; x0d] true true)).
  - vm_compute. reflexivity.
  - reflexivity.
Defined.

(** C7. When the probe cannot read the file, [is_binary] returns [True]
    instead of raising, and the file is skipped: nothing is printed and the
    working tree is as it was. *)
Theorem probe_failure_is_binary os path w e :
  fs_read (w_fs w) path = inl e ->
  is_binary path w = (Returned true, add_event (Open path RB) w)
  ∧ replace_pii os path w = (Returned tt, add_event (Open path RB) w).
Proof.
  intros He.
  assert (is_binary path w = (Returned true, add_event (Open path RB) w)) as Hb
    by by rewrite is_binary_run, He.
  split; [done|].
  rewrite replace_pii_run, replace_pii_try_skip; [done|]. left. by rewrite Hb.
Qed.

Lemma probe_failure_is_binary_witness :
  is_binary (py "gone.txt") w_image
  = (Returned true, add_event (Open (py "gone.txt") RB) w_image)
  ∧ replace_pii posix (py "gone.txt") w_image
    = (Returned tt, add_event (Open (py "gone.txt") RB) w_image).
Proof.
  apply (probe_failure_is_binary posix (py "gone.txt") w_image FileNotFoundError).
  vm_compute. reflexivity.
Defined.

(** C4. A file at an excluded path, or with a disallowed byte among its
    first 1024 bytes, is skipped whatever it holds: the only [open] is the
    probe's, none is for writing, and the working tree is as it was. *)
Theorem skipped_file_untouched os path w :
  excluded path
  ∨ (∃ f, w_fs w !! path = Some (Regular f) ∧ binary_content (f_data f)) ->
  ∃ w', replace_pii os path w = (Returned tt, w')
        ∧ w_fs w' = w_fs w
        ∧ w_trace w' = w_trace w ++ [Open path RB].
Proof.
  intros H. exists (add_event (Open path RB) w). split; [|done].
  rewrite replace_pii_run, replace_pii_try_skip; [done|].
  destruct H as [H|(f & Hf & Hbin)]; [by right|left].
  rewrite is_binary_run. unfold fs_read. rewrite Hf. simpl.
  destruct (f_readable f); [|done].
  apply is_binary_string_spec in Hbin. by rewrite Hbin.
Qed.

Lemma skipped_file_untouched_witness :
  ∃ w', replace_pii posix (py "vendor/lib/util.py") w_vendor = (Returned tt, w')
        ∧ w_fs w' = w_fs w_vendor
        ∧ w_trace w' = w_trace w_vendor ++ [Open (py "vendor/lib/util.py") RB].
Proof.
  apply (skipped_file_untouched posix (py "vendor/lib/util.py") w_vendor).
  left. apply excluded_spec. vm_compute. reflexivity.
Defined.

(** ** The claim on the round trip *)

(** C5, as stated, fails: on POSIX a file with CRLF line ends and nothing
    to redact is rewritten with LF line ends, and on Windows a file with LF
    line ends is rewritten with CRLF line ends. *)
Lemma line_ends_rewritten :
  ¬ content_kept posix w_crlf (py "notes.txt")
  ∧ ¬ content_kept windows w_lf (py "notes.txt").
Proof.
  split; intros H.
  - destruct (H (mkfile [x61; x0d; x0a; x62; x0d; x0a] true true) [97; 13; 10; 98; 13; 10])
      as (f' & Hf' & Hd).
    + vm_compute. reflexivity.
    + split; [vm_compute; reflexivity|].
      rewrite <- excluded_spec. vm_compute. discriminate.
    + vm_compute. reflexivity.
    + apply no_pattern_check; vm_compute; reflexivity.
    + vm_compute in Hf'. injection Hf' as <-. vm_compute in Hd. discriminate.
  - destruct (H (mkfile [x61; x0a; x62; x0a] true true) [97; 10; 98; 10])
      as (f' & Hf' & Hd).
    + vm_compute. reflexivity.
    + split; [vm_compute; reflexivity|].
      rewrite <- excluded_spec. vm_compute. discriminate.
    + vm_compute. reflexivity.
    + apply no_pattern_check; vm_compute; reflexivity.
    + vm_compute in Hf'. injection Hf' as <-. vm_compute in Hd. discriminate.
Qed.

(** C5, amended. For an eligible file whose content decodes and has no
    occurrence of either pattern, [replace_pii] returns, and a writable
    file then holds the UTF-8 encoding of its text with the line ends
    translated (read: CR and CRLF as LF; written: LF as [os.linesep]); a
    file that is not writable is as it was.  The content is unchanged byte
    for byte on POSIX when it has no carriage return, and on Windows when
    all its lines end with CRLF. *)
Theorem content_kept_up_to_line_ends os w path f text :
  w_fs w !! path = Some (Regular f) -> eligible w path ->
  utf8_decode (f_data f) = Some text -> no_pattern text ->
  ∃ data' w',
    utf8_encode (write_newlines (linesep os) (universal_newlines text)) = Some data'
    ∧ replace_pii os path w = (Returned tt, w')
    ∧ w_fs w' !! path
      = Some (Regular (mkfile (if f_writable f then data' else f_data f)
                         (f_readable f) (f_writable f)))
    ∧ (name os = Posix -> 13 ∉ text -> data' = f_data f)
    ∧ (name os = Nt -> crlf_lines text = true -> data' = f_data f).
Proof.
  intros Hf Hel Hdec Hno.
  pose proof (utf8_roundtrip _ _ Hdec) as Henc.
  assert (is_Some (utf8_encode
            (write_newlines (linesep os) (universal_newlines text)))) as [data' Hd'].
  { apply utf8_encode_Some.
    apply write_newlines_Forall; [by eexists..|].
    apply universal_newlines_Forall; [by eexists|].
    apply utf8_encode_Some. by eexists. }
  assert (name os = Posix -> 13 ∉ text -> data' = f_data f) as Hposix.
  { intros Hos Hcr.
    rewrite (write_newlines_posix os _ Hos), (universal_newlines_id _ Hcr) in Hd'.
    congruence. }
  assert (name os = Nt -> crlf_lines text = true -> data' = f_data f) as Hnt.
  { intros Hos Hcrlf. unfold write_newlines, linesep in Hd'. rewrite Hos in Hd'.
    rewrite decide_False in Hd' by done.
    rewrite (write_newlines_crlf _ Hcrlf) in Hd'. congruence. }
  exists data'.
  rewrite replace_pii_run, (replace_pii_try_eligible os path w f Hf Hel), Hdec.
  cbv zeta.
  rewrite (redact_no_pattern _ (no_pattern_universal_newlines _ Hno)), Hd'.
  destruct f as [data r [|]]; simpl in *; eexists; (split; [done|]);
    (split; [reflexivity|]); (split; [|done]); simpl.
  - by rewrite lookup_insert_eq.
  - done.
Qed.

Lemma content_kept_up_to_line_ends_witness :
  ∃ data' w',
    utf8_encode (write_newlines (linesep posix) (universal_newlines [97; 10; 98; 10]))
    = Some data'
    ∧ replace_pii posix (py "notes.txt") w_lf = (Returned tt, w')
    ∧ w_fs w' !! py "notes.txt"
      = Some (Regular (mkfile data' true true))
    ∧ (name posix = Posix -> 13 ∉ [97; 10; 98; 10] -> data' = [x61; x0a; x62; x0a])
    ∧ (name posix = Nt -> crlf_lines [97; 10; 98; 10] = true
       -> data' = [x61; x0a; x62; x0a]).
Proof.
  apply (content_kept_up_to_line_ends posix w_lf (py "notes.txt")
           (mkfile [x61; x0a; x62; x0a] true true) [97; 10; 98; 10]).
  - vm_compute. reflexivity.
  - split; [vm_compute; reflexivity|].
    rewrite <- excluded_spec. vm_compute. discriminate.
  - vm_compute. reflexivity.
  - apply no_pattern_check; vm_compute; reflexivity.
Defined.

(** ** The claims on the run *)





(** C10, as stated, fails: where [tracked_files.txt] is left from before
    and read-only, the shell cannot write to it, and the run goes on with
    what the file held. *)
Lemma stale_listing_kept :
  ¬ listing_written_and_staged posix w_listing_readonly.
Proof.
  intros [(f & Hf & Hdata) _]. vm_compute in Hf. injection Hf as <-.
  vm_compute in Hdata. discriminate.
Qed.

(** C10, amended. Where the shell can open [tracked_files.txt] for writing,
    the run creates or overwrites it with what git lists; no run removes an
    entry of the working tree; and a run that returns has run [git add .]
    last, on a working tree that holds [tracked_files.txt] as a regular
    file.  What is staged then is what git takes of that tree, if the
    command succeeds, and what was staged before, if it fails: the status
    of this command is dropped as well. *)
Theorem listing_file_created_and_staged os w :
  (∀ fs, fs_create (w_fs w) tracked_files = inr fs ->
     ∃ f, w_fs (snd (os_system ls_command w)) !! tracked_files = Some (Regular f)
          ∧ f_data f = w_ls_files w)
  ∧ (∀ p, is_Some (w_fs w !! p) -> is_Some (w_fs (snd (main os w)) !! p))
  ∧ (fst (main os w) = Returned tt ->
     ∃ f, w_fs (snd (main os w)) !! tracked_files = Some (Regular f)
          ∧ last (w_trace (snd (main os w))) = Some (System add_command)
          ∧ w_staged (snd (main os w))
            = match w_git_add w (w_fs (snd (main os w))) with
              | Some st => Some st
              | None => w_staged w
              end).
Proof.
  destruct (main_fs os w) as (lines & w2 & Hw2 & Hfs & Hret).
  destruct (process_lines_effect os lines w2) as (evs & fs' & Hrun & _ & _ & Hreg & Hdir).
  rewrite Hrun in Hfs. cbn [snd w_fs] in Hfs.
  split; [|split].
  - intros fs Hc. rewrite os_system_ls_fs, Hc, lookup_insert_eq. by eexists.
  - intros p Hp. apply os_system_ls_keeps in Hp. rewrite <- Hw2 in Hp.
    rewrite Hfs. destruct Hp as [[f|] Hp].
    + destruct (Hreg p f Hp) as [f' ->]. by eexists.
    + rewrite (Hdir p Hp). by eexists.
  - intros Hr. destruct (Hret Hr) as ([f Hf] & Hlast & Hst).
    destruct (Hreg _ _ Hf) as [f' Hf']. exists f'.
    rewrite Hfs. split; [done|]. split; [done|]. by rewrite Hst, Hfs.
Qed.

(** * Further properties of the program *)

(** ** The codec, from text to bytes and back *)

Lemma to_N_byte_of n : n < 256 -> Byte.to_N (byte_of n) = n.
Proof.
  intros Hn. unfold byte_of.
  destruct (Byte.of_N n) as [b|] eqn:Hb.
  - by apply Byte.to_of_N.
  - apply Byte.of_N_None_iff in Hb. lia.
Qed.

(** The decoder reads the UTF-8 form of a code point as that code point. *)
Lemma utf8_decode_char c enc r :
  utf8_char c = Some enc -> utf8_decode (enc ++ r) = cons c <$> utf8_decode r.
Proof.
  unfold utf8_char.
  destruct (c <? 0x80) eqn:H1.
  { intros [= <-]. apply N.ltb_lt in H1. cbn [app utf8_decode]. cbv zeta.
    rewrite to_N_byte_of by lia.
    by replace (c <? 0x80) with true by (symmetry; apply N.ltb_lt; lia). }
  apply N.ltb_ge in H1.
  pose proof (N.div_mod' c 64) as Hc. pose proof (N.mod_lt c 64) as Hr.
  set (q := c / 64) in *. set (r0 := c mod 64) in *.
  destruct (c <? 0x800) eqn:H2.
  { intros [= <-]. apply N.ltb_lt in H2. cbn [app utf8_decode]. cbv zeta.
    rewrite !to_N_byte_of by lia.
    replace (0xC0 + q <? 0x80) with false by (symmetry; apply N.ltb_ge; lia).
    replace ((0xC0 <=? 0xC0 + q) && (0xC0 + q <? 0xE0)) with true
      by (symmetry; apply andb_true_iff; rewrite N.leb_le, N.ltb_lt; lia).
    replace (0xC0 + q - 0xC0) with q by lia.
    replace (0x80 + r0 - 0x80) with r0 by lia.
    replace (q * 64 + r0) with c by lia.
    replace (cont (0x80 + r0) && (0x80 <=? c)) with true; [done|].
    symmetry. unfold cont. rewrite !andb_true_iff, !N.leb_le. lia. }
  apply N.ltb_ge in H2.
  pose proof (N.div_mod' q 64) as Hq. pose proof (N.mod_lt q 64) as Hr1.
  assert (c / 4096 = q / 64) as H4096
    by (unfold q; rewrite N.Div0.div_div; reflexivity).
  rewrite H4096.
  set (q1 := q / 64) in *. set (r1 := q mod 64) in *.
  destruct (c <? 0x10000) eqn:H3.
  { apply N.ltb_lt in H3. destruct (surrogate c) eqn:Hs; [done|].
    intros [= <-]. cbn [app utf8_decode]. cbv zeta.
    rewrite !to_N_byte_of by lia.
    replace (0xE0 + q1 <? 0x80) with false by (symmetry; apply N.ltb_ge; lia).
    replace ((0xC0 <=? 0xE0 + q1) && (0xE0 + q1 <? 0xE0)) with false
      by (symmetry; apply andb_false_iff; right; apply N.ltb_ge; lia).
    replace ((0xE0 <=? 0xE0 + q1) && (0xE0 + q1 <? 0xF0)) with true
      by (symmetry; apply andb_true_iff; rewrite N.leb_le, N.ltb_lt; lia).
    replace (0xE0 + q1 - 0xE0) with q1 by lia.
    replace (0x80 + r1 - 0x80) with r1 by lia.
    replace (0x80 + r0 - 0x80) with r0 by lia.
    replace (q1 * 4096 + r1 * 64 + r0) with c by lia.
    rewrite Hs.
    replace (cont (0x80 + r1) && cont (0x80 + r0) && (0x800 <=? c)) with true;
      [done|].
    symmetry. unfold cont. rewrite !andb_true_iff, !N.leb_le. lia. }
  apply N.ltb_ge in H3.
  destruct (c <=? 0x10FFFF) eqn:H5; [|done]. apply N.leb_le in H5.
  pose proof (N.div_mod' q1 64) as Hq1. pose proof (N.mod_lt q1 64) as Hr2.
  assert (c / 262144 = q1 / 64) as H262144.
  { unfold q1, q. rewrite !N.Div0.div_div. reflexivity. }
  rewrite H262144.
  set (q2 := q1 / 64) in *. set (r2 := q1 mod 64) in *.
  intros [= <-]. cbn [app utf8_decode]. cbv zeta.
  rewrite !to_N_byte_of by lia.
  replace (0xF0 + q2 <? 0x80) with false by (symmetry; apply N.ltb_ge; lia).
  replace ((0xC0 <=? 0xF0 + q2) && (0xF0 + q2 <? 0xE0)) with false
    by (symmetry; apply andb_false_iff; right; apply N.ltb_ge; lia).
  replace ((0xE0 <=? 0xF0 + q2) && (0xF0 + q2 <? 0xF0)) with false
    by (symmetry; apply andb_false_iff; right; apply N.ltb_ge; lia).
  replace ((0xF0 <=? 0xF0 + q2) && (0xF0 + q2 <? 0xF8)) with true
    by (symmetry; apply andb_true_iff; rewrite N.leb_le, N.ltb_lt; lia).
  replace (0xF0 + q2 - 0xF0) with q2 by lia.
  replace (0x80 + r2 - 0x80) with r2 by lia.
  replace (0x80 + r1 - 0x80) with r1 by lia.
  replace (0x80 + r0 - 0x80) with r0 by lia.
  replace (q2 * 262144 + r2 * 4096 + r1 * 64 + r0) with c by lia.
  replace (cont (0x80 + r2) && cont (0x80 + r1) && cont (0x80 + r0)
           && (0x10000 <=? c) && (c <=? 0x10FFFF)) with true; [done|].
  symmetry. unfold cont. rewrite !andb_true_iff, !N.leb_le. lia.
Qed.

(** Decoding the encoding of a text gives the text back. *)
Lemma utf8_decode_encode s b : utf8_encode s = Some b -> utf8_decode b = Some s.
Proof.
  revert b. induction s as [|c s IH]; intros b; simpl.
  - by intros [= <-].
  - destruct (utf8_char c) as [enc|] eqn:Hc; [|done].
    destruct (utf8_encode s) as [r|]; [|done]. intros [= <-].
    by rewrite (utf8_decode_char c enc r Hc), (IH r).
Qed.

(** ** What the redaction leaves behind *)

(** A text the substitution does not change holds no match. *)
Lemma home_sub_fixed_no_match t :
  home_sub t = t -> ∀ u, u ∈ tails t -> match_here home_pattern u = None.
Proof.
  induction t as [|c t IH]; intros Hfix u Hu.
  - apply list_elem_of_singleton in Hu as ->. reflexivity.
  - rewrite home_sub_cons in Hfix.
    destruct (match_here home_pattern (c :: t)) as [n|] eqn:Hm.
    + apply match_home_head in Hm as ->. done.
    + injection Hfix as Hfix. simpl in Hu.
      apply elem_of_cons in Hu as [->|Hu]; [done|by apply IH].
Qed.

Lemma redact_no_occurrence s : ¬ ∃ m, occurrence m ∧ substring m (redact s).
Proof.
  intros (m & Hocc & pre & post & Heq).
  rewrite redact_home_sub in Heq.
  pose proof (home_sub_fixed_no_match _ (home_sub_idempotent s) (m ++ post)) as Hno.
  rewrite (match_home_occurrence m post Hocc) in Hno.
  assert (Some (length m) = None); [|done].
  apply Hno, tails_spec. exists pre. by rewrite Heq.
Qed.

Lemma home_sub_length s : (length (home_sub s) <= length s)%nat.
Proof.
  remember (length s) as n eqn:Hn. revert s Hn.
  induction n as [n IH] using lt_wf_ind. intros [|c s] Hn; [simpl; lia|].
  rewrite home_sub_cons.
  destruct (match_here home_pattern (c :: s)) as [k|] eqn:Hm.
  - destruct (match_home_some _ _ Hm) as (m & Hocc & Heq & Hlen).
    apply occurrence_length in Hocc.
    assert (k <= length (c :: s))%nat as Hk.
    { rewrite Heq, length_app. lia. }
    pose proof (IH (length (drop k (c :: s)))) as IH'.
    rewrite length_app. change (length (py "/USER_HOME/")) with 11%nat.
    specialize (IH' ltac:(rewrite length_drop; simpl in *; lia) _ eq_refl).
    rewrite length_drop in IH'. lia.
  - simpl. specialize (IH (length s) ltac:(simpl in Hn; lia) s eq_refl).
    simpl in Hn. lia.
Qed.

(** ** Line ends, written and read again *)

(** The text read holds no carriage return. *)
Lemma universal_newlines_no_cr s : Forall (λ c, c ≠ 13) (universal_newlines s).
Proof.
  remember (length s) as n eqn:Hn. revert s Hn.
  induction n as [n IH] using lt_wf_ind. intros [|c s] Hn; [constructor|].
  simpl. destruct (c =? 13) eqn:Hc.
  - constructor; [done|]. destruct s as [|d s]; [constructor|].
    destruct (d =? 10).
    + apply (IH (length s)); [simpl in *; lia|done].
    + apply (IH (length (d :: s))); [simpl in *; lia|done].
  - apply N.eqb_neq in Hc. constructor; [done|].
    apply (IH (length s)); [simpl in *; lia|done].
Qed.

Lemma universal_newlines_fixed s :
  Forall (λ c, c ≠ 13) s -> universal_newlines s = s.
Proof.
  intros Hs. apply universal_newlines_id. intros Hin.
  rewrite Forall_forall in Hs. by apply (Hs 13).
Qed.

Lemma universal_newlines_cr_lf x :
  universal_newlines (13 :: 10 :: x) = 10 :: universal_newlines x.
Proof. reflexivity. Qed.

Lemma universal_newlines_other c x :
  c ≠ 13 -> universal_newlines (c :: x) = c :: universal_newlines x.
Proof. intros Hc. simpl. apply N.eqb_neq in Hc. by rewrite Hc. Qed.

(** Line ends written the Windows way are read back as they were. *)
Lemma universal_newlines_crlf r :
  Forall (λ c, c ≠ 13) r ->
  universal_newlines (str_replace [10] [13; 10] r) = r.
Proof.
  unfold str_replace. induction 1 as [|c r Hc _ IH]; [done|].
  rewrite scan_cons. unfold literal_here at 1. cbn [starts_with].
  destruct (10 =? c) eqn:H10.
  - apply N.eqb_eq in H10 as <-. cbn [andb length]. cbv iota. rewrite drop_0.
    change ([13; 10] ++ scan (literal_here [10]) [13; 10] 0 r)
      with (13 :: 10 :: scan (literal_here [10]) [13; 10] 0 r).
    by rewrite universal_newlines_cr_lf, IH.
  - cbn [andb]. cbv iota. by rewrite universal_newlines_other, IH.
Qed.

Lemma write_then_read os r :
  Forall (λ c, c ≠ 13) r ->
  universal_newlines (write_newlines (linesep os) r) = r.
Proof.
  intros Hr. unfold write_newlines, linesep. destruct (name os).
  - rewrite decide_True by done. by apply universal_newlines_fixed.
  - rewrite decide_False by done. by apply universal_newlines_crlf.
Qed.

Lemma redact_no_cr s : Forall (λ c, c ≠ 13) s -> Forall (λ c, c ≠ 13) (redact s).
Proof. apply redact_Forall; by repeat constructor. Qed.

Lemma universal_newlines_cr d x :
  d ≠ 10 -> universal_newlines (13 :: d :: x) = 10 :: universal_newlines (d :: x).
Proof. intros Hd. apply N.eqb_neq in Hd. cbn [universal_newlines]. simpl (13 =? 13). by rewrite Hd. Qed.

(** Reading goes through a text piece by piece, where the second piece
    does not start with a line feed. *)
Lemma universal_newlines_app a c b :
  c ≠ 10 ->
  universal_newlines (a ++ c :: b) = universal_newlines a ++ universal_newlines (c :: b).
Proof.
  intros Hc. remember (length a) as n eqn:Hn. revert a Hn.
  induction n as [n IH] using lt_wf_ind. intros [|x a] Hn; [done|].
  destruct (decide (x = 13)) as [->|Hx].
  - destruct a as [|d a].
    + cbn [app]. by rewrite universal_newlines_cr.
    + cbn [app]. destruct (decide (d = 10)) as [->|Hd].
      * rewrite !universal_newlines_cr_lf. cbn [app]. f_equal.
        apply (IH (length a)); [simpl in *; lia|done].
      * rewrite !universal_newlines_cr by done. cbn [app]. f_equal.
        apply (IH (length (d :: a)) ltac:(simpl in *; lia) (d :: a) eq_refl).
  - cbn [app]. rewrite !universal_newlines_other by done. cbn [app]. f_equal.
    apply (IH (length a)); [simpl in *; lia|done].
Qed.

(** An occurrence of the pattern is still one in the text as read. *)
Lemma occurrence_universal_newlines s :
  (∃ m, occurrence m ∧ substring m s) ->
  ∃ m, occurrence m ∧ substring m (universal_newlines s).
Proof.
  intros (m & (seg & Hne & Hseg & ->) & pre & post & ->).
  exists (home_prefix ++ universal_newlines seg ++ [92]). split.
  - exists (universal_newlines seg). split; [|split; [|done]].
    + destruct seg as [|c seg]; [done|]. simpl. by destruct (c =? 13).
    + by apply universal_newlines_Forall.
  - exists (universal_newlines pre), (universal_newlines post).
    rewrite home_prefix_eq. simpl. rewrite universal_newlines_app by done.
    f_equal. simpl. do 9 f_equal. rewrite <- !app_assoc.
    destruct seg as [|c seg]; [done|]. simpl app.
    change (c :: seg ++ 92 :: post) with ((c :: seg) ++ 92 :: post).
    rewrite universal_newlines_app by done. by simpl.
Qed.

(** ** Reading the listing by blocks *)











(** ** The working tree after [replace_pii] *)

Lemma excluded_path_spec path : excluded_path path = true <-> excluded path.
Proof. apply excluded_spec. Qed.

Lemma replace_pii_fs os path w :
  w_fs (snd (replace_pii os path w)) = processed os path (w_fs w).
Proof.
  unfold processed. rewrite replace_pii_run.
  destruct (skip_or_eligible path w) as [Hskip|[Hel (f & Hf & Hr)]].
  - rewrite (replace_pii_try_skip os path w Hskip). cbn [snd add_event w_fs].
    destruct (excluded_path path) eqn:Hex; [done|].
    destruct Hskip as [Hbin|Hex']; [|by apply excluded_path_spec in Hex'; congruence].
    symmetry. apply alter_id. intros e He.
    rewrite is_binary_run in Hbin. cbn [fst] in Hbin. unfold fs_read in Hbin.
    rewrite He in Hbin. destruct e as [f|]; [|done]. simpl.
    destruct (f_readable f); [|done].
    injection Hbin as ->. done.
  - pose proof Hel as [Hbin Hex]. rewrite <- excluded_path_spec in Hex.
    apply not_true_is_false in Hex. rewrite Hex.
    rewrite is_binary_run in Hbin. cbn [fst] in Hbin. unfold fs_read in Hbin.
    rewrite Hf, Hr in Hbin. injection Hbin as Hbin.
    rewrite (replace_pii_try_eligible os path w f Hf Hel). cbv zeta.
    assert (∀ e', rewritten os (Regular f) = e' ->
                  <[path := e']> (w_fs w) = alter (rewritten os) path (w_fs w)) as Hins.
    { intros e' <-. apply map_eq. intros p.
      rewrite lookup_alter, lookup_insert. case_decide; [subst; by rewrite Hf|done]. }
    assert (w_fs w = <[path := Regular f]> (w_fs w)) as Hid
      by (symmetry; by apply insert_id).
    destruct (utf8_decode (f_data f)) as [text|] eqn:Hdec.
    + destruct (f_writable f) eqn:Hw.
      * destruct (utf8_encode _) as [b|] eqn:Henc; cbn [snd set_fs add_event w_fs];
          apply Hins; unfold rewritten; by rewrite Hr, Hbin, Hw, Hdec, Henc.
      * cbn [snd add_event w_fs]. rewrite Hid at 1. apply Hins.
        unfold rewritten. by rewrite Hr, Hbin, Hw.
    + cbn [snd add_event w_fs]. rewrite Hid at 1. apply Hins.
      unfold rewritten. rewrite Hdec. by destruct (_ && _).
Qed.

Lemma replace_pii_rest os path w :
  w_ls_files (snd (replace_pii os path w)) = w_ls_files w
  ∧ w_staged (snd (replace_pii os path w)) = w_staged w.
Proof.
  by destruct (replace_pii_effect os path w) as (evs & fs' & -> & _).
Qed.

(** The entry at the path after [replace_pii] depends on the entry before. *)
Lemma processed_lookup os path fs :
  processed os path fs !! path
  = if excluded_path path then fs !! path else rewritten os <$> fs !! path.
Proof.
  unfold processed. destruct (excluded_path path); [done|]. apply lookup_alter_eq.
Qed.

Lemma processed_lookup_ne os path fs p :
  p ≠ path -> processed os path fs !! p = fs !! p.
Proof.
  intros Hp. unfold processed. destruct (excluded_path path); [done|].
  by apply lookup_alter_ne.
Qed.

(** What was rewritten is not rewritten again. *)
Lemma rewritten_idempotent os e : rewritten os (rewritten os e) = rewritten os e.
Proof.
  destruct e as [f|]; [|done].
  destruct (f_readable f && negb (is_binary_string (take 1024 (f_data f)))
            && f_writable f) eqn:Hc.
  2:{ assert (rewritten os (Regular f) = Regular f) as ->
        by (unfold rewritten; by rewrite Hc).
      unfold rewritten. by rewrite Hc. }
  destruct (utf8_decode (f_data f)) as [text|] eqn:Hdec.
  2:{ assert (rewritten os (Regular f) = Regular f) as ->
        by (unfold rewritten; by rewrite Hc, Hdec).
      unfold rewritten. by rewrite Hc, Hdec. }
  destruct (redacted_text_encodes os _ _ Hdec) as [data Hdata].
  assert (rewritten os (Regular f) = Regular (mkfile data (f_readable f) true)) as ->
    by (unfold rewritten; by rewrite Hc, Hdec, Hdata).
  unfold rewritten. cbn [f_data f_readable f_writable].
  destruct (f_readable f && negb (is_binary_string (take 1024 data)) && true);
    [|done].
  rewrite (utf8_decode_encode _ _ Hdata).
  rewrite write_then_read
    by apply redact_no_cr, universal_newlines_no_cr.
  rewrite !redact_home_sub, home_sub_idempotent, <- redact_home_sub.
  by rewrite Hdata.
Qed.

Lemma processed_idempotent os path fs :
  processed os path (processed os path fs) = processed os path fs.
Proof.
  unfold processed. destruct (excluded_path path); [done|].
  rewrite alter_alter_eq. apply alter_ext. intros e _. apply rewritten_idempotent.
Qed.

(** ** The working tree after the loop and after [main] *)

Lemma process_lines_fs os lines w :
  w_fs (snd (process_lines os lines w))
  = foldl (λ fs line, processed os (strip line) fs) (w_fs w) lines.
Proof.
  revert w. induction lines as [|line lines IH]; intros w; [reflexivity|].
  rewrite process_lines_cons, IH. simpl. by rewrite replace_pii_fs.
Qed.

(** What the entry at [p] goes through when [p] is processed. *)
Lemma processed_twice_lookup os p fs fs' :
  fs' !! p = processed os p fs !! p ->
  processed os p fs' !! p = processed os p fs !! p.
Proof.
  intros H. rewrite (processed_lookup os p fs'), H, processed_lookup.
  destruct (excluded_path p); [done|].
  destruct (fs !! p); simpl; [by rewrite rewritten_idempotent|done].
Qed.

Lemma processed_local os p fs fs' :
  fs' !! p = fs !! p -> processed os p fs' !! p = processed os p fs !! p.
Proof.
  intros H. rewrite !processed_lookup. by rewrite H.
Qed.

(** After the loop an entry is as one call of [replace_pii] leaves it when
    its path is among the lines, and as it was when it is not. *)
Lemma fold_processed_lookup os lines fs p :
  foldl (λ fs line, processed os (strip line) fs) fs lines !! p
  = if decide (p ∈ strip <$> lines) then processed os p fs !! p else fs !! p.
Proof.
  revert fs. induction lines as [|line lines IH]; intros fs; [done|].
  cbn [foldl]. rewrite IH. rewrite fmap_cons.
  destruct (decide (p = strip line)) as [->|Hne].
  - rewrite (decide_True (P := strip line ∈ strip line :: _)) by by left.
    case_decide; [|done]. apply processed_twice_lookup. done.
  - case_decide as Hin.
    + rewrite decide_True by by right.
      apply processed_local. by apply processed_lookup_ne.
    + rewrite decide_False.
      * by apply processed_lookup_ne.
      * intros [?|?]%elem_of_cons; done.
Qed.

Lemma crlf_lines_written r :
  Forall (λ c, c ≠ 13) r -> crlf_lines (str_replace [10] [13; 10] r) = true.
Proof.
  unfold str_replace. induction 1 as [|c r Hc _ IH]; [done|].
  rewrite scan_cons. unfold literal_here at 1. cbn [starts_with].
  destruct (10 =? c) eqn:H10.
  - cbn [andb length]. cbv iota. rewrite drop_0.
    change ([13; 10] ++ scan (literal_here [10]) [13; 10] 0 r)
      with (13 :: 10 :: scan (literal_here [10]) [13; 10] 0 r).
    cbn [crlf_lines]. simpl (13 =? 13). simpl (10 =? 10). by rewrite IH.
  - cbn [andb]. cbv iota. cbn [crlf_lines].
    apply N.eqb_neq in Hc. rewrite Hc. rewrite N.eqb_sym, H10. by rewrite IH.
Qed.

(** ** What [replace_pii] does and does not do *)

(** X2. [replace_pii] creates no entry and removes none, keeps directories
    directories and files files, keeps the permissions of the files, and
    touches neither what git lists nor what is staged. *)
Theorem replace_pii_keeps_kinds_and_permissions os path w p :
  match w_fs w !! p with
  | None => w_fs (snd (replace_pii os path w)) !! p = None
  | Some Directory => w_fs (snd (replace_pii os path w)) !! p = Some Directory
  | Some (Regular f) =>
      ∃ f', w_fs (snd (replace_pii os path w)) !! p = Some (Regular f')
            ∧ f_readable f' = f_readable f ∧ f_writable f' = f_writable f
  end
  ∧ w_ls_files (snd (replace_pii os path w)) = w_ls_files w
  ∧ w_staged (snd (replace_pii os path w)) = w_staged w.
Proof.
  split; [|apply replace_pii_rest]. rewrite replace_pii_fs.
  destruct (decide (p = path)) as [->|Hne].
  2:{ rewrite processed_lookup_ne by done.
      destruct (w_fs w !! p) as [[f|]|]; [by exists f|done..]. }
  rewrite processed_lookup. destruct (excluded_path path).
  { destruct (w_fs w !! path) as [[f|]|]; [by exists f|done..]. }
  destruct (w_fs w !! path) as [[f|]|]; [|done..]. cbn [fmap option_fmap option_map].
  unfold rewritten.
  destruct (f_readable f && _ && f_writable f) eqn:Hc; [|by exists f].
  apply andb_true_iff in Hc as [_ Hw].
  destruct (utf8_decode (f_data f)); [|by exists f].
  destruct (utf8_encode _); eexists; (split; [reflexivity|]); by rewrite Hw.
Qed.

(** X4. An eligible file that decodes and can be written is rewritten
    without any error: afterwards it holds the UTF-8 encoding of its
    redacted text, with its permissions, and that text holds no occurrence
    of [C:\Users\<segment>\]. *)
Theorem eligible_file_holds_redacted_text os path w f text :
  w_fs w !! path = Some (Regular f) -> eligible w path ->
  utf8_decode (f_data f) = Some text -> f_writable f = true ->
  ∃ data',
    replace_pii os path w
    = (Returned tt,
       set_fs (<[path := Regular (mkfile data' (f_readable f) (f_writable f))]> (w_fs w))
         (add_event (Open path W)
            (add_event (Open path R) (add_event (Open path RB) w))))
    ∧ utf8_decode data'
      = Some (write_newlines (linesep os) (redact (universal_newlines text)))
    ∧ ¬ ∃ m, occurrence m
             ∧ substring m (write_newlines (linesep os)
                              (redact (universal_newlines text))).
Proof.
  intros Hf Hel Hdec Hw.
  destruct (redacted_text_encodes os _ _ Hdec) as [data' Hd']. exists data'.
  split; [|split].
  - rewrite replace_pii_run, (replace_pii_try_eligible os path w f Hf Hel), Hdec.
    cbv zeta. by rewrite Hw, Hd'.
  - by apply utf8_decode_encode.
  - intros Hocc. apply occurrence_universal_newlines in Hocc.
    rewrite write_then_read in Hocc
      by apply redact_no_cr, universal_newlines_no_cr.
    by apply (redact_no_occurrence (universal_newlines text)).
Qed.

Lemma eligible_file_holds_redacted_text_witness :
  ∃ data',
    replace_pii posix (py "conf.ini") w_two
    = (Returned tt,
       set_fs (<[py "conf.ini" := Regular (mkfile data' true true)]> (w_fs w_two))
         (add_event (Open (py "conf.ini") W)
            (add_event (Open (py "conf.ini") R)
               (add_event (Open (py "conf.ini") RB) w_two))))
    ∧ utf8_decode data'
      = Some (write_newlines (linesep posix)
                (redact (universal_newlines (py "home=C:\Users\alice\cfg"))))
    ∧ ¬ ∃ m, occurrence m
             ∧ substring m (write_newlines (linesep posix)
                              (redact (universal_newlines (py "home=C:\Users\alice\cfg")))).
Proof.
  apply (eligible_file_holds_redacted_text posix (py "conf.ini") w_two
           (mkfile (ascii_bytes "home=C:\Users\alice\cfg") true true)
           (py "home=C:\Users\alice\cfg")).
  - vm_compute. reflexivity.
  - split; [vm_compute; reflexivity|].
    rewrite <- excluded_spec. vm_compute. discriminate.
  - vm_compute. reflexivity.
  - reflexivity.
Defined.

(** X5. Whatever the text, no occurrence of [C:\Users\<segment>\] is left in
    what [redact] returns. *)
Theorem redact_leaves_no_home_path s :
  ¬ ∃ m, occurrence m ∧ substring m (redact s).
Proof. apply redact_no_occurrence. Qed.

(** X6. The redacted text is never longer than the text. *)
Theorem redact_never_longer s : (length (redact s) <= length s)%nat.
Proof. rewrite redact_home_sub. apply home_sub_length. Qed.

(** X7. Processing a file a second time changes nothing in the working
    tree, whatever the first time did. *)
Theorem second_replace_pii_changes_nothing os path w :
  w_fs (snd (replace_pii os path (snd (replace_pii os path w))))
  = w_fs (snd (replace_pii os path w)).
Proof. rewrite !replace_pii_fs. apply processed_idempotent. Qed.

(** X8. The events of one call of [replace_pii]: the probe comes first,
    also for an excluded path; what follows is about the same path, an
    [open] for reading or for writing or the line of the handler; so no
    other path is opened and no command is run; and the file is opened for
    writing at most once. *)
Theorem replace_pii_events os path w :
  ∃ evs,
    events_of (replace_pii os path) w = Open path RB :: evs
    ∧ Forall (λ e, e = Open path R ∨ e = Open path W ∨ ∃ x, e = PrintError path x) evs
    ∧ (length (filter (λ e, e = Open path W) evs) <= 1)%nat.
Proof.
  unfold events_of. rewrite replace_pii_run.
  destruct (skip_or_eligible path w) as [Hskip|[Hel (f & Hf & Hr)]].
  { rewrite (replace_pii_try_skip os path w Hskip). simpl.
    rewrite drop_app_length. exists []. split; [done|]. split; [constructor|].
    simpl. lia. }
  rewrite (replace_pii_try_eligible os path w f Hf Hel). cbv zeta.
  destruct (utf8_decode (f_data f)) as [s|] eqn:Hdec.
  - destruct (f_writable f).
    + destruct (redacted_text_encodes os _ _ Hdec) as [data' ->]. simpl.
      rewrite <- !app_assoc, drop_app_length.
      exists [Open path R; Open path W]. split; [done|].
      split; [repeat first [apply Forall_nil|apply Forall_cons; split]; eauto|].
      rewrite filter_cons_False by done. by rewrite filter_cons_True.
    + simpl. rewrite <- !app_assoc, drop_app_length.
      exists [Open path R; Open path W; PrintError path PermissionError].
      split; [done|].
      split; [repeat first [apply Forall_nil|apply Forall_cons; split]; eauto|].
      rewrite filter_cons_False by done. rewrite filter_cons_True by done.
      rewrite filter_cons_False by done. simpl. lia.
  - simpl. rewrite <- !app_assoc, drop_app_length.
    exists [Open path R; PrintError path UnicodeDecodeError]. split; [done|].
    split; [repeat first [apply Forall_nil|apply Forall_cons; split]; eauto|].
    rewrite filter_cons_False by done. rewrite filter_cons_False by done.
    simpl. lia.
Qed.

(** ** What the loop and [main] do to the files *)

(** X11. The working tree the loop leaves depends on which paths the lines
    name, not on their order nor on how often a path is named. *)
Theorem loop_order_irrelevant os l1 l2 w :
  (∀ p, p ∈ strip <$> l1 <-> p ∈ strip <$> l2) ->
  w_fs (snd (process_lines os l1 w)) = w_fs (snd (process_lines os l2 w)).
Proof.
  intros Hsame. apply map_eq. intros p.
  rewrite !process_lines_fs, !fold_processed_lookup.
  destruct (decide (p ∈ strip <$> l1)) as [H1|H1].
  - rewrite decide_True; [done|]. by apply Hsame.
  - rewrite decide_False; [done|]. by rewrite <- Hsame.
Qed.

Lemma loop_order_irrelevant_witness :
  w_fs (snd (process_lines posix
               [py "conf.ini" ++ [10]; py "notes.md" ++ [10]; py "conf.ini" ++ [10]] w_two))
  = w_fs (snd (process_lines posix [py "notes.md" ++ [10]; py "conf.ini" ++ [10]] w_two)).
Proof.
  apply (loop_order_irrelevant posix
           [py "conf.ini" ++ [10]; py "notes.md" ++ [10]; py "conf.ini" ++ [10]]
           [py "notes.md" ++ [10]; py "conf.ini" ++ [10]] w_two).
  intros p. cbn [fmap list_fmap]. rewrite !elem_of_cons, !elem_of_nil. tauto.
Defined.

(** X12. A second pass of the loop over the same lines changes nothing in
    the working tree. *)
Theorem second_pass_changes_nothing os lines w :
  w_fs (snd (process_lines os lines (snd (process_lines os lines w))))
  = w_fs (snd (process_lines os lines w)).
Proof.
  apply map_eq. intros p.
  rewrite (process_lines_fs os lines (snd _)), fold_processed_lookup.
  case_decide as Hin; [|done].
  assert (w_fs (snd (process_lines os lines w)) !! p
          = processed os p (w_fs w) !! p) as Hp
    by by rewrite process_lines_fs, fold_processed_lookup, decide_True.
  rewrite (processed_twice_lookup os p (w_fs w) _ Hp). by rewrite Hp.
Qed.

(** X13. The line ends of a rewritten file are those of the platform: on
    POSIX the file holds no carriage return, on Windows every line feed
    follows a carriage return and every carriage return is followed by a
    line feed. *)
Theorem rewritten_file_has_platform_line_ends os path w f text :
  w_fs w !! path = Some (Regular f) -> eligible w path ->
  utf8_decode (f_data f) = Some text -> f_writable f = true ->
  ∃ f' text',
    w_fs (snd (replace_pii os path w)) !! path = Some (Regular f')
    ∧ utf8_decode (f_data f') = Some text'
    ∧ match name os with
      | Posix => Forall (λ c, c ≠ 13) text'
      | Nt => crlf_lines text' = true
      end.
Proof.
  intros Hf Hel Hdec Hw.
  destruct (redacted_text_encodes os _ _ Hdec) as [data' Hd'].
  exists (mkfile data' (f_readable f) true). eexists. split; [|split].
  - rewrite replace_pii_run, (replace_pii_try_eligible os path w f Hf Hel), Hdec.
    cbv zeta. rewrite Hw, Hd'. cbn [snd set_fs w_fs]. apply lookup_insert_eq.
  - by apply utf8_decode_encode.
  - pose proof (redact_no_cr _ (universal_newlines_no_cr text)) as Hcr.
    unfold write_newlines, linesep. destruct (name os).
    + by rewrite decide_True.
    + rewrite decide_False by done. by apply crlf_lines_written.
Qed.

Lemma rewritten_file_has_platform_line_ends_witness :
  ∃ f' text',
    w_fs (snd (replace_pii windows (py "notes.txt") w_lf)) !! py "notes.txt"
    = Some (Regular f')
    ∧ utf8_decode (f_data f') = Some text'
    ∧ match name windows with
      | Posix => Forall (λ c, c ≠ 13) text'
      | Nt => crlf_lines text' = true
      end.
Proof.
  apply (rewritten_file_has_platform_line_ends windows (py "notes.txt") w_lf
           (mkfile [x61; x0a; x62; x0a] true true) [97; 10; 98; 10]).
  - vm_compute. reflexivity.
  - split; [vm_compute; reflexivity|].
    rewrite <- excluded_spec. vm_compute. discriminate.
  - vm_compute. reflexivity.
  - reflexivity.
Defined.

(** ** The listing, read by blocks *)


